(** * aiostomp benchmark ([bench/bench.py]): model and verified properties

    The development embeds the pure core of the benchmark driver:
    the message partitioner [message_per_client], the byte formatter
    [human_bytes], the statistics classes [Sample], [SampleGroup] and
    [Benchmark], and the subscriber's [Handler] (the idle-timeout detector
    of [run_subscribe]).

    Conventions of the embedding.
    - Python [int] is [Z].  [//] and [%] are the floor division and
      modulo of [Z] and raise [ZeroDivisionError] on a zero divisor.
    - Python [float] (clock readings, rates, throughput) is modelled by
      exact rationals [Qc]; rounding of binary64 arithmetic is not
      modelled.  [math.sqrt] is the real square root.
    - A raised exception is the [Raise] branch of [result].
    - The subscriber is a state machine over the events the loop delivers
      to it: calls of [handle_message] and wake-ups of [timeout_task], each
      with the clock readings it takes. *)

From Stdlib Require Import ZArith QArith Qcanon Reals Psatz.
From stdpp Require Import base tactics option list numbers strings pretty.

Local Open Scope Z_scope.

(** ** Exceptions and the error monad *)

Inductive exn : Set :=
  | ZeroDivisionError
  | TypeError
  | IndexError
  | UnboundLocalError
  | ValueError
  | InvalidStateError.

Inductive result (A : Type) : Type :=
  | Return (a : A)
  | Raise (e : exn).
Arguments Return {A} a.
Arguments Raise {A} e.

#[global] Instance result_ret : MRet result := fun A a => Return a.
#[global] Instance result_bind : MBind result := fun A B f m =>
  match m with
  | Return a => f a
  | Raise e => Raise e
  end.

(** [for x in xs: body], threading the loop-carried state. *)
Fixpoint for_in {A S : Type} (xs : list A) (body : S -> A -> result S) (s : S)
  : result S :=
  match xs with
  | [] => Return s
  | x :: xs' => s' ← body s x; for_in xs' body s'
  end.

(** ** Integer helpers *)

(** [a // b] on ints. *)
Definition floordiv (a b : Z) : result Z :=
  if decide (b = 0) then Raise ZeroDivisionError else Return (a / b).

(** [a % b] on ints. *)
Definition pymod (a b : Z) : result Z :=
  if decide (b = 0) then Raise ZeroDivisionError else Return (a mod b).

(** [range(n)]: empty when [n <= 0]. *)
Definition range (n : Z) : list nat := seq 0 (Z.to_nat n).

(** [sum(l)] on a list of ints. *)
Definition sum (l : list Z) : Z := foldl Z.add 0 l.

(** ** The partitioner *)

(** [l[x] += 1] for a non-negative index [x]. *)
Definition incr_item (l : list Z) (x : nat) : result (list Z) :=
  match l !! x with
  | Some v => Return (<[x := v + 1]> l)
  | None => Raise IndexError
  end.

Definition message_per_client (messages clients : Z) : result (list Z) :=
  n ← floordiv messages clients;
  let messages_per_client := replicate (Z.to_nat clients) n in
  remainder ← pymod messages clients;
  for_in (range remainder) incr_item messages_per_client.


(** Lines 387-392 of [run_benchmark]: the partitioner is called only when
    the publisher count is non-zero, and [pub_messages[i]] is read once per
    publisher connection (one connection per [s in range(np)]). *)
Definition publisher_quotas (n np : Z) : result (list Z) :=
  pub_messages ←
    (if decide (np ≠ 0) then l ← message_per_client n np; Return (Some l)
     else Return None);
  for_in (range np)
    (fun quotas i =>
       match pub_messages with
       | None => Raise UnboundLocalError
       | Some l =>
           match l !! i with
           | Some q => Return (quotas ++ [q])
           | None => Raise IndexError
           end
       end) [].

(** ** Numbers that may be [None] *)

(** A Python value that is either [None] or a number.  Clock readings and
    the fields derived from them hold such values. *)
Inductive pyval : Set :=
  | PNone
  | PNum (q : Qc).

#[global] Instance pyval_eq_dec : EqDecision pyval.
Proof. solve_decision. Defined.

(** [a - b] *)
Definition py_sub (a b : pyval) : result Qc :=
  match a, b with
  | PNum x, PNum y => Return (x - y)%Qc
  | _, _ => Raise TypeError
  end.

(** [a < b] *)
Definition py_lt (a b : pyval) : result bool :=
  match a, b with
  | PNum x, PNum y => Return (bool_decide (x < y)%Qc)
  | _, _ => Raise TypeError
  end.

(** [a > b] *)
Definition py_gt (a b : pyval) : result bool := py_lt b a.

(** Truth value of [a] in a condition: [None] and zero are false. *)
Definition truthy (a : pyval) : bool :=
  match a with
  | PNone => false
  | PNum x => bool_decide (x ≠ 0%Qc)
  end.

(** [a / b] on numbers. *)
Definition truediv (a b : Qc) : result Qc :=
  if decide (b = 0%Qc) then Raise ZeroDivisionError else Return (a / b)%Qc.

(** [min(a, b)] and [max(a, b)] of two numbers. *)
Definition py_min (a b : Qc) : Qc := if decide (b < a)%Qc then b else a.
Definition py_max (a b : Qc) : Qc := if decide (a < b)%Qc then b else a.

(** [seq[index]] with Python's negative indices. *)
Definition getitem {A : Type} (l : list A) (index : Z) : result A :=
  let i := if decide (index < 0) then index + Z.of_nat (length l) else index in
  if decide (i < 0) then Raise IndexError
  else match l !! Z.to_nat i with
       | Some x => Return x
       | None => Raise IndexError
       end.

(** ** Formatting *)

(** Nearest integer, ties to even. *)
Definition round_half_even (q : Qc) : Z :=
  let n := Qnum q in
  let d := Z.pos (Qden q) in
  let f := n / d in
  let r := 2 * (n mod d) in
  if decide (r < d) then f
  else if decide (d < r) then f + 1
  else if Z.even f then f else f + 1.

(** ["{:.2f}".format(q)] *)
Definition format_2f (q : Qc) : string :=
  let neg := bool_decide (q < 0)%Qc in
  let a := if neg then (- q)%Qc else q in
  let c := round_half_even (a * Qc_of_Z 100)%Qc in
  let frac := c mod 100 in
  (if neg then "-" else "") +:+ pretty (c / 100) +:+ "." +:+
  (if decide (frac < 10) then "0" else "") +:+ pretty frac.

(** Integer part of the base-[base] logarithm of [n], for [1 <= n]. *)
Fixpoint ilog_go (fuel : nat) (base n : Z) : Z :=
  match fuel with
  | O => 0
  | S fuel' => if decide (n < base) then 0 else 1 + ilog_go fuel' base (n / base)
  end.

(** [int(math.log(b) / math.log(float(base)))] for [b >= base >= 2], over
    exact reals: the floor of the logarithm.  The rounding of [math.log]
    is not modelled. *)
Definition log_floor (base : Z) (b : Qc) : Z :=
  let n := Qnum b / Z.pos (Qden b) in
  ilog_go (Z.to_nat (Z.log2 n)) base n.

Definition human_bytes (bytes_ : Qc) (si : bool) : result string :=
  let base := if si then 1000 else 1024 in
  let pre := if si then ["k"; "M"; "G"; "T"; "P"; "E"]
             else ["K"; "M"; "G"; "T"; "P"; "E"] in
  let post := if si then "iB" else "B" in
  if decide (bytes_ < Qc_of_Z base)%Qc then Return (format_2f bytes_ +:+ " B")
  else
    let exp := log_floor base bytes_ in
    let index := exp - 1 in
    p ← getitem pre index;
    let units := p +:+ post in
    Return (format_2f (bytes_ / Qc_of_Z (base ^ exp))%Qc +:+ " " +:+ units).

(** ** [class Sample] *)

Module Sample.

Record t : Set := make {
  messages : Z;
  msg_length : Z;
  msg_bytes : Z;
  start : pyval;
  end_ : pyval
}.

(** [Sample.__init__] *)
Definition init (messages msg_length : Z) (start end_ : pyval) : t :=
  {| messages := messages;
     msg_length := msg_length;
     msg_bytes := messages * msg_length;
     start := start;
     end_ := end_ |}.

Definition duration (self : t) : result Qc :=
  py_sub (end_ self) (start self).

Definition rate (self : t) : result Qc :=
  let m := Qc_of_Z (messages self) in
  d ← duration self;
  truediv m d.

Definition throughput (self : t) : result Qc :=
  d ← duration self;
  truediv (Qc_of_Z (msg_bytes self)) d.

(** [Sample.__str__] *)
Definition str (self : t) : result string :=
  r ← rate self;
  tp ← throughput self;
  hb ← human_bytes tp false;
  Return (format_2f r +:+ " msgs/sec ~ " +:+ hb +:+ "/sec").

End Sample.

(** ** [class SampleGroup(Sample)] *)

Module SampleGroup.

(** The inherited [Sample] fields are the component [super]. *)
Record t : Set := make {
  super : Sample.t;
  samples : list Sample.t
}.

Definition messages (self : t) : Z := Sample.messages (super self).
Definition msg_bytes (self : t) : Z := Sample.msg_bytes (super self).
Definition start (self : t) : pyval := Sample.start (super self).
Definition end_ (self : t) : pyval := Sample.end_ (super self).

(** [SampleGroup.__init__] *)
Definition init : t :=
  {| super := Sample.init 0 0 (PNum 0%Qc) (PNum 0%Qc); samples := [] |}.

Definition set_start (self : t) (v : pyval) : t :=
  let b := super self in
  {| super := Sample.make (Sample.messages b) (Sample.msg_length b)
                (Sample.msg_bytes b) v (Sample.end_ b);
     samples := samples self |}.

Definition set_end (self : t) (v : pyval) : t :=
  let b := super self in
  {| super := Sample.make (Sample.messages b) (Sample.msg_length b)
                (Sample.msg_bytes b) (Sample.start b) v;
     samples := samples self |}.

Definition set_messages (self : t) (v : Z) : t :=
  let b := super self in
  {| super := Sample.make v (Sample.msg_length b)
                (Sample.msg_bytes b) (Sample.start b) (Sample.end_ b);
     samples := samples self |}.

Definition set_msg_bytes (self : t) (v : Z) : t :=
  let b := super self in
  {| super := Sample.make (Sample.messages b) (Sample.msg_length b)
                v (Sample.start b) (Sample.end_ b);
     samples := samples self |}.

(** [add_sample] mutates the group; the mutation done before an
    exception is raised stays, so the group is returned in both cases. *)
Definition add_sample (self : t) (sample : Sample.t) : t * result () :=
  let self := {| super := super self; samples := samples self ++ [sample] |} in
  let self :=
    if decide (length (samples self) = 1%nat)
    then set_end (set_start self (Sample.start sample)) (Sample.end_ sample)
    else self in
  let self := set_messages self (messages self + Sample.messages sample) in
  let self := set_msg_bytes self (msg_bytes self + Sample.msg_bytes sample) in
  match py_lt (Sample.start sample) (start self) with
  | Raise e => (self, Raise e)
  | Return lt =>
      let self := if lt then set_start self (Sample.start sample) else self in
      match py_gt (Sample.end_ sample) (end_ self) with
      | Raise e => (self, Raise e)
      | Return gt =>
          let self := if gt then set_end self (Sample.end_ sample) else self in
          (self, Return ())
      end
  end.

(** [add_sample] for each sample of [l] in turn, stopping at the first
    exception. *)
Fixpoint add_samples (self : t) (l : list Sample.t) : t * result () :=
  match l with
  | [] => (self, Return ())
  | s :: l' =>
      match add_sample self s with
      | (self', Return _) => add_samples self' l'
      | (self', Raise e) => (self', Raise e)
      end
  end.

(** Body of the loop of [min_rate]; [m] is unbound ([None]) before the
    first iteration. *)
Definition min_rate_body (m : option Qc) (ix : nat * Sample.t)
  : result (option Qc) :=
  let '(i, s) := ix in
  m ← (if decide (i = 0%nat) then r ← Sample.rate s; Return (Some r)
       else Return m);
  r ← Sample.rate s;
  match m with
  | Some m => Return (Some (py_min m r))
  | None => Raise UnboundLocalError
  end.

Definition enumerate {A : Type} (l : list A) : list (nat * A) :=
  imap (fun i x => (i, x)) l.

Definition min_rate (self : t) : result Qc :=
  m ← for_in (enumerate (samples self)) min_rate_body None;
  match m with
  | Some m => Return m
  | None => Raise UnboundLocalError
  end.

Definition max_rate_body (m : option Qc) (ix : nat * Sample.t)
  : result (option Qc) :=
  let '(i, s) := ix in
  m ← (if decide (i = 0%nat) then r ← Sample.rate s; Return (Some r)
       else Return m);
  r ← Sample.rate s;
  match m with
  | Some m => Return (Some (py_max m r))
  | None => Raise UnboundLocalError
  end.

Definition max_rate (self : t) : result Qc :=
  m ← for_in (enumerate (samples self)) max_rate_body None;
  match m with
  | Some m => Return m
  | None => Raise UnboundLocalError
  end.

Definition avg_rate (self : t) : result Qc :=
  sum_ ← for_in (samples self)
           (fun sum_ s => r ← Sample.rate s; Return (sum_ + r)%Qc) 0%Qc;
  truediv sum_ (Qc_of_Z (Z.of_nat (length (samples self)))).

(** The local [variance] of [std_dev]. *)
Definition variance (self : t) : result Qc :=
  avg ← avg_rate self;
  sum_ ← for_in (samples self)
           (fun sum_ c =>
              r ← Sample.rate c;
              Return (sum_ + (r - avg) * (r - avg))%Qc) 0%Qc;
  truediv sum_ (Qc_of_Z (Z.of_nat (length (samples self)))).

(** [math.sqrt] of a number, as a real; [ValueError] on a negative
    argument. *)
Definition math_sqrt (v : Qc) : result R :=
  if decide (v < 0)%Qc then Raise ValueError else Return (sqrt (Q2R v)).

Definition std_dev (self : t) : result R :=
  v ← variance self;
  math_sqrt v.

End SampleGroup.

(** ** [class Benchmark] *)

Module Benchmark.

Record t : Set := make {
  subscribe : SampleGroup.t;
  publish : SampleGroup.t;
  server : string
}.

Definition init (server : string) : t :=
  {| subscribe := SampleGroup.init; publish := SampleGroup.init;
     server := server |}.

Definition add_sample (self : t) (sample_type : string) (sample : Sample.t)
  : t * result () :=
  if decide (sample_type = "subscribe") then
    let '(g, r) := SampleGroup.add_sample (subscribe self) sample in
    ({| subscribe := g; publish := publish self; server := server self |}, r)
  else if decide (sample_type = "publish") then
    let '(g, r) := SampleGroup.add_sample (publish self) sample in
    ({| subscribe := subscribe self; publish := g; server := server self |}, r)
  else (self, Return ()).

End Benchmark.

(** ** The subscriber: [class Handler] of [run_subscribe] *)

(** The idle window added to [loop.time()] and the period of the poll
    ([asyncio.sleep(0.2)]). *)
Definition IDLE_WINDOW : Qc := Q2Qc (3 # 5).
Definition POLL_INTERVAL : Qc := Q2Qc (1 # 5).

(** State of the task running [timeout_task]. *)
Inductive task_state : Set :=
  | Running
  | Failed (e : exn)
  | Cancelled.

Module Handler.

(** [_waiter] is [true] once the future has a result.  The shared
    [bench] and the [client] live in the [world] below. *)
Record t : Set := make {
  counter : Z;
  message_size : Z;
  num_msgs : Z;
  timeout : pyval;
  start : pyval;
  end_ : pyval;
  _waiter : bool;
  _task : task_state
}.

(** [Handler.__init__] *)
Definition init (message_size num_msgs : Z) : t :=
  {| counter := 0; message_size := message_size; num_msgs := num_msgs;
     timeout := PNone; start := PNone; end_ := PNone;
     _waiter := false; _task := Running |}.

Definition set_counter (self : t) (v : Z) : t :=
  make v (message_size self) (num_msgs self) (timeout self) (start self)
    (end_ self) (_waiter self) (_task self).

Definition set_timeout (self : t) (v : pyval) : t :=
  make (counter self) (message_size self) (num_msgs self) v (start self)
    (end_ self) (_waiter self) (_task self).

Definition set_start (self : t) (v : pyval) : t :=
  make (counter self) (message_size self) (num_msgs self) (timeout self) v
    (end_ self) (_waiter self) (_task self).

Definition set_end (self : t) (v : pyval) : t :=
  make (counter self) (message_size self) (num_msgs self) (timeout self)
    (start self) v (_waiter self) (_task self).

Definition set_waiter (self : t) (v : bool) : t :=
  make (counter self) (message_size self) (num_msgs self) (timeout self)
    (start self) (end_ self) v (_task self).

Definition set_task (self : t) (v : task_state) : t :=
  make (counter self) (message_size self) (num_msgs self) (timeout self)
    (start self) (end_ self) (_waiter self) v.

Definition reset_timeout (self : t) (timeout end_ : pyval) : t :=
  set_end (set_timeout self timeout) end_.

(** [handle_message]; [loop_time] and [timer] are the readings of
    [self.loop.time()] and [timer()] taken by this call. *)
Definition handle_message (self : t) (loop_time timer : Qc) : t :=
  let self := set_counter self (counter self + 1) in
  let self :=
    match start self with
    | PNone => set_start self (PNum timer)
    | _ => self
    end in
  match timeout self with
  | PNone => set_timeout self (PNum (loop_time + IDLE_WINDOW)%Qc)
  | _ =>
      let cancel_at := (loop_time + IDLE_WINDOW)%Qc in
      reset_timeout self (PNum cancel_at) (PNum timer)
  end.

(** The condition [self.timeout and time >= self.timeout]. *)
Definition deadline_elapsed (self : t) (time : Qc) : result bool :=
  if truthy (timeout self) then
    lt ← py_lt (PNum time) (timeout self);
    Return (negb lt)
  else Return false.

(** [self._waiter.set_result(True)] *)
Definition set_result (self : t) : result t :=
  if _waiter self then Raise InvalidStateError
  else Return (set_waiter self true).

(** One iteration of the loop of [timeout_task], up to its
    [asyncio.sleep]; [time] is the reading of [self.loop.time()]. *)
Definition timeout_task_iter (self : t) (bench : Benchmark.t) (time : Qc)
  : Benchmark.t * result t :=
  match deadline_elapsed self time with
  | Raise e => (bench, Raise e)
  | Return false => (bench, Return self)
  | Return true =>
      let sample :=
        Sample.init (counter self) (message_size self) (start self)
          (end_ self) in
      match Benchmark.add_sample bench "subscribe" sample with
      | (bench', Raise e) => (bench', Raise e)
      | (bench', Return _) => (bench', set_result self)
      end
  end.

End Handler.

(** What the event loop delivers to one subscriber: a call of
    [handle_message] with its two clock readings, or a wake-up of
    [timeout_task] with its reading of [loop.time()]. *)
Inductive event : Set :=
  | Message (loop_time timer : Qc)
  | Poll (loop_time : Qc).

Record world : Set := World {
  handler : Handler.t;
  bench : Benchmark.t;
  client_closed : bool;
  completed_at : option Qc
}.

(** [wait_complete] after [_waiter] got its result: the poll task is
    cancelled and the client closed, at loop time [time]. *)
Definition wait_complete (h : Handler.t) (b : Benchmark.t) (time : Qc) : world :=
  {| handler := Handler.set_task h Cancelled; bench := b;
     client_closed := true; completed_at := Some time |}.

Definition step (w : world) (e : event) : world :=
  match e with
  | Message loop_time timer =>
      if client_closed w then w
      else {| handler := Handler.handle_message (handler w) loop_time timer;
              bench := bench w; client_closed := client_closed w;
              completed_at := completed_at w |}
  | Poll time =>
      match Handler._task (handler w) with
      | Running =>
          match Handler.timeout_task_iter (handler w) (bench w) time with
          | (b, Raise e) =>
              {| handler := Handler.set_task (handler w) (Failed e);
                 bench := b; client_closed := client_closed w;
                 completed_at := completed_at w |}
          | (b, Return h) =>
              if Handler._waiter h then wait_complete h b time
              else {| handler := h; bench := b;
                      client_closed := client_closed w;
                      completed_at := completed_at w |}
          end
      | _ => w
      end
  end.

(** [run_subscribe] over the events delivered to it. *)
Definition run_subscribe (bench : Benchmark.t) (message_size num_msgs : Z)
    (events : list event) : world :=
  foldl step
    {| handler := Handler.init message_size num_msgs; bench := bench;
       client_closed := false; completed_at := None |}
    events.

(** *** Event schedules *)

(** [schedule_ok next_poll now events]: loop times never decrease from
    [now] on, and the polls are exactly at [next_poll],
    [next_poll + POLL_INTERVAL], ... *)
Fixpoint schedule_ok (next_poll now : Qc) (events : list event) : bool :=
  match events with
  | [] => true
  | Message t _ :: events' =>
      bool_decide (now ≤ t)%Qc && bool_decide (t ≤ next_poll)%Qc &&
      schedule_ok next_poll t events'
  | Poll p :: events' =>
      bool_decide (p = next_poll) && bool_decide (now ≤ p)%Qc &&
      schedule_ok (p + POLL_INTERVAL)%Qc p events'
  end.

(** Loop time of the last message of the events, if any. *)
Definition last_step (last : option Qc) (e : event) : option Qc :=
  match e with
  | Message t _ => Some t
  | Poll _ => last
  end.

Definition last_message_time (events : list event) : option Qc :=
  foldl last_step None events.

(** The [timer()] readings of the messages of the events, in order. *)
Definition message_timers (events : list event) : list Qc :=
  omap (fun e => match e with Message _ tm => Some tm | Poll _ => None end)
    events.

(** ** Vocabulary of the statements *)

(** A value that is a number, and a sample whose two time bounds are. *)
Definition numeric (v : pyval) : bool :=
  match v with
  | PNum _ => true
  | PNone => false
  end.

Definition has_bounds (s : Sample.t) : bool :=
  numeric (Sample.start s) && numeric (Sample.end_ s).

(** The numeric [start]s and [end]s of a list of samples. *)
Definition starts (l : list Sample.t) : list Qc :=
  omap (fun s => match Sample.start s with PNum a => Some a | PNone => None end) l.

Definition ends (l : list Sample.t) : list Qc :=
  omap (fun s => match Sample.end_ s with PNum b => Some b | PNone => None end) l.

(** [m] is the least, respectively the greatest, of [xs]. *)
Definition least (m : Qc) (xs : list Qc) : Prop :=
  m ∈ xs ∧ ∀ x, x ∈ xs → (m ≤ x)%Qc.

Definition greatest (m : Qc) (xs : list Qc) : Prop :=
  m ∈ xs ∧ ∀ x, x ∈ xs → (x ≤ m)%Qc.

(** Following the spec's words: the arithmetic mean and the population
    standard deviation (variance divided by N, not N-1) of a list of
    rates.  [SampleGroup.avg_rate] and [SampleGroup.std_dev] are compared
    with these. *)
Definition total (xs : list Qc) : Qc := foldr Qcplus 0%Qc xs.

Definition count (xs : list Qc) : Qc := Qc_of_Z (Z.of_nat (length xs)).

Definition mean (xs : list Qc) : Qc := (total xs / count xs)%Qc.

Definition population_variance (xs : list Qc) : Qc :=
  (total ((fun x => (x - mean xs) * (x - mean xs)) <$> xs) / count xs)%Qc.

Definition population_std_dev (xs : list Qc) : R :=
  sqrt (Q2R (population_variance xs)).

(** The [end] a handler holds after the messages with [timer()] readings
    [tms]: unset until the second message. *)
Definition end_after (tms : list Qc) : pyval :=
  match tms with
  | [] | [_] => PNone
  | _ :: tm :: tms' => PNum (List.last tms' tm)
  end.

Definition start_after (tms : list Qc) : pyval :=
  match tms with
  | [] => PNone
  | tm :: _ => PNum tm
  end.

(** The counters of a handler whose client is still open, after the
    messages with [timer()] readings [tms]. *)
Definition tracks (w : world) (tms : list Qc) : Prop :=
  Handler.counter (handler w) = Z.of_nat (length tms) ∧
  Handler.start (handler w) = start_after tms ∧
  Handler.end_ (handler w) = end_after tms ∧
  (Handler.timeout (handler w) = PNone ↔ tms = []).

(** What a run lets one observe: everything but the stored quota
    [num_msgs]. *)
Definition observable (w : world)
  : (Z * Z * pyval * pyval * pyval * bool * task_state)
    * Benchmark.t * bool * option Qc :=
  let h := handler w in
  ((Handler.counter h, Handler.message_size h, Handler.timeout h,
    Handler.start h, Handler.end_ h, Handler._waiter h, Handler._task h),
   bench w, client_closed w, completed_at w).

(** Where a schedule stands after an event: the next poll and the time. *)
Definition schedule_step (s : Qc * Qc) (e : event) : Qc * Qc :=
  match e with
  | Message t _ => (s.1, t)
  | Poll p => ((p + POLL_INTERVAL)%Qc, p)
  end.

(** What holds between the poll schedule and the handler while the poll
    task runs: the deadline is the idle window after the last message,
    and the next poll comes less than one poll interval after it. *)
Definition armed (w : world) (s : Qc * Qc) (last : option Qc) : Prop :=
  (0 ≤ s.2)%Qc ∧ (s.1 ≤ s.2 + POLL_INTERVAL)%Qc ∧
  (Handler._task (handler w) = Running →
   client_closed w = false ∧ completed_at w = None ∧
   Handler._waiter (handler w) = false ∧
   match last with
   | None => Handler.timeout (handler w) = PNone
   | Some t =>
       Handler.timeout (handler w) = PNum (t + IDLE_WINDOW)%Qc ∧
       (0 ≤ t)%Qc ∧ (s.1 < t + IDLE_WINDOW + POLL_INTERVAL)%Qc
   end).

(** Scenario C: polls every 0.2 from time 0, five messages 0.1 apart
    (loop times 0.05 to 0.45, [timer()] readings 10.05 to 10.45), then
    silence. *)
Definition scenario_C : list event :=
  [Poll (Q2Qc 0);
   Message (Q2Qc (5 # 100)) (Q2Qc (1005 # 100));
   Message (Q2Qc (15 # 100)) (Q2Qc (1015 # 100));
   Poll (Q2Qc (2 # 10));
   Message (Q2Qc (25 # 100)) (Q2Qc (1025 # 100));
   Message (Q2Qc (35 # 100)) (Q2Qc (1035 # 100));
   Poll (Q2Qc (4 # 10));
   Message (Q2Qc (45 # 100)) (Q2Qc (1045 # 100));
   Poll (Q2Qc (6 # 10));
   Poll (Q2Qc (8 # 10));
   Poll (Q2Qc (10 # 10))].

(** A single message at loop time 0.05, then silence past the idle
    window. *)
Definition single_message : list event :=
  [Poll (Q2Qc 0);
   Message (Q2Qc (5 # 100)) (Q2Qc (1005 # 100));
   Poll (Q2Qc (2 # 10));
   Poll (Q2Qc (4 # 10));
   Poll (Q2Qc (6 # 10));
   Poll (Q2Qc (8 # 10))].

(** ** More of the coordinator and the publisher *)

(** Lines 376-385 of [run_benchmark]: the subscribers' quota is computed
    only when the subscriber count is non-zero, and the same
    [sub_messages] is passed to every subscriber connection (one per
    [s in range(ns)]). *)
Definition subscriber_quotas (n ns : Z) : result (list Z) :=
  sub_messages ←
    (if decide (ns ≠ 0) then q ← floordiv n ns; Return (Some q)
     else Return None);
  for_in (range ns)
    (fun quotas _ =>
       match sub_messages with
       | None => Raise UnboundLocalError
       | Some q => Return (quotas ++ [q])
       end) [].

(** The running totals of a group agree with the samples it stores. *)
Definition totals_consistent (g : SampleGroup.t) : Prop :=
  SampleGroup.messages g = sum (Sample.messages <$> SampleGroup.samples g) ∧
  SampleGroup.msg_bytes g = sum (Sample.msg_bytes <$> SampleGroup.samples g).

(** A group that is empty or whose two bounds are numbers. *)
Definition bounds_ready (g : SampleGroup.t) : Prop :=
  SampleGroup.samples g = [] ∨
  (numeric (SampleGroup.start g) = true ∧ numeric (SampleGroup.end_ g) = true).

(** [Benchmark.add_sample] for each sample with its role in turn, stopping
    at the first exception. *)
Fixpoint add_typed_samples (b : Benchmark.t) (l : list (string * Sample.t))
  : Benchmark.t * result () :=
  match l with
  | [] => (b, Return ())
  | (sample_type, s) :: l' =>
      match Benchmark.add_sample b sample_type s with
      | (b', Return _) => add_typed_samples b' l'
      | (b', Raise e) => (b', Raise e)
      end
  end.

(** The samples of a role among samples with roles, in order. *)
Definition of_role (role : string) (l : list (string * Sample.t))
  : list Sample.t :=
  (filter (fun p => p.1 = role) l).*2.

(** The messaging client as the benchmark uses it: the [send] calls it
    received, in order, and whether [close] was called. *)
Record client : Set := Client {
  sent : list (string * string);
  closed : bool
}.

Definition client_send (c : client) (queue msg : string) : client :=
  {| sent := sent c ++ [(queue, msg)]; closed := closed c |}.

Definition client_close (c : client) : client :=
  {| sent := sent c; closed := true |}.

(** [run_publish].  [msg] is the payload its first statement draws at
    random; [start] and [end_] are its two readings of [timer()]. *)
Definition run_publish (c : client) (bench : Benchmark.t) (msg : string)
    (message_size num_msgs : Z) (queue : string) (start end_ : Qc)
  : client * Benchmark.t * result () :=
  let c := foldl (fun c _ => client_send c queue msg) c (range num_msgs) in
  match Benchmark.add_sample bench "publish"
          (Sample.init num_msgs message_size (PNum start) (PNum end_)) with
  | (bench', Raise e) => (c, bench', Raise e)
  | (bench', Return _) => (client_close c, bench', Return ())
  end.

(** The publisher tasks of [run_benchmark], in the order they finish: each
    job is a quota with the two clock readings of its task, and each task
    has a connection of its own. *)
Fixpoint run_publishers (bench : Benchmark.t) (msg : string)
    (message_size : Z) (queue : string) (jobs : list (Z * (Qc * Qc)))
  : list client * Benchmark.t * result () :=
  match jobs with
  | [] => ([], bench, Return ())
  | (num_msgs, (start, end_)) :: jobs' =>
      match run_publish (Client [] false) bench msg message_size num_msgs
              queue start end_ with
      | (c, bench', Raise e) => ([c], bench', Raise e)
      | (c, bench', Return _) =>
          let '(cs, bench'', r) :=
            run_publishers bench' msg message_size queue jobs' in
          (c :: cs, bench'', r)
      end
  end.

(** While the poll task runs, nothing has been handed over yet: the client
    is open, the waiter has no result and the benchmark is still [b]. *)
Definition quiet (b : Benchmark.t) (w : world) : Prop :=
  Handler._task (handler w) = Running →
  client_closed w = false ∧ Handler._waiter (handler w) = false ∧
  completed_at w = None ∧ bench w = b.

Definition is_poll (e : event) : bool :=
  match e with
  | Poll _ => true
  | Message _ _ => false
  end.

(** * Verified properties *)

(** Arithmetic on [Qc] is settled on the underlying [Q]. *)
Ltac to_Q :=
  unfold Qcle, Qclt, Qcdiv, Qcminus, Qcinv, Qcplus, Qcmult, Qcopp, Q2Qc in *;
  cbn [this fst snd] in *; rewrite ?Qred_correct in *.


(** ** Partitioner *)

Section partitioner.

Lemma sum_from (a : Z) (l : list Z) : foldl Z.add a l = a + sum l.
Proof.
  unfold sum. revert a. induction l as [|x l IH]; intros a; simpl; [lia|].
  rewrite (IH (a + x)), (IH (0 + x)). lia.
Qed.

Lemma sum_app (l1 l2 : list Z) : sum (l1 ++ l2) = sum l1 + sum l2.
Proof. unfold sum at 1. rewrite foldl_app, sum_from. fold (sum l1). lia. Qed.

Lemma sum_replicate (k : nat) (x : Z) : sum (replicate k x) = Z.of_nat k * x.
Proof.
  induction k as [|k IH]; [reflexivity|].
  change (replicate (S k) x) with ([x] ++ replicate k x).
  rewrite sum_app, IH. unfold sum; simpl. lia.
Qed.

(** The loop [for x in range(remainder): messages_per_client[x] += 1],
    started at index [k]. *)
Lemma incr_prefix (n : Z) (c r k : nat) :
  (k + r ≤ c)%nat →
  for_in (seq k r) incr_item (replicate k (n + 1) ++ replicate (c - k) n)
  = Return (replicate (k + r) (n + 1) ++ replicate (c - (k + r)) n).
Proof.
  revert k. induction r as [|r IH]; intros k Hk; simpl.
  - by rewrite Nat.add_0_r.
  - assert (incr_item (replicate k (n + 1) ++ replicate (c - k) n) k
            = Return (replicate (S k) (n + 1) ++ replicate (c - S k) n)) as ->.
    { unfold incr_item.
      rewrite lookup_app_r by (rewrite length_replicate; lia).
      rewrite length_replicate, Nat.sub_diag.
      destruct (c - k)%nat as [|m] eqn:Hm; [lia|]. simpl. f_equal.
      rewrite insert_app_r_alt by (rewrite length_replicate; lia).
      rewrite length_replicate, Nat.sub_diag. simpl.
      replace (c - S k)%nat with m by lia.
      by rewrite app_comm_cons, replicate_cons_app, <-app_assoc. }
    simpl. rewrite IH by lia. by rewrite Nat.add_succ_r.
Qed.

Lemma message_per_client_shape (total workers : Z) :
  workers ≠ 0 →
  0 ≤ total mod workers →
  message_per_client total workers
  = Return (replicate (Z.to_nat (total mod workers)) (total / workers + 1)
            ++ replicate (Z.to_nat workers - Z.to_nat (total mod workers))
                 (total / workers)).
Proof.
  intros Hw Hr. unfold message_per_client, floordiv, pymod, range.
  destruct (decide (workers = 0)); [done|]. simpl.
  assert (Z.to_nat (total mod workers) ≤ Z.to_nat workers)%nat as Hle.
  { destruct (decide (0 < workers)) as [Hp|Hn].
    - pose proof (Z.mod_pos_bound total workers Hp). lia.
    - pose proof (Z.mod_neg_bound total workers ltac:(lia)). lia. }
  pose proof (incr_prefix (total / workers) (Z.to_nat workers)
                (Z.to_nat (total mod workers)) 0) as H.
  simpl in H. rewrite Nat.sub_0_r in H. by apply H.
Qed.

End partitioner.

(** C1.  For [total >= 0] and [workers >= 1] the partitioner returns
    [workers] quotas that sum to [total]; each quota is within one of
    [total // workers]; exactly the first [total % workers] quotas carry the
    extra unit; and [message_per_client(10, 3) == [4, 3, 3]]. *)
Theorem message_per_client_fair (total workers : Z) :
  0 ≤ total → 1 ≤ workers →
  ∃ l : list Z,
    message_per_client total workers = Return l ∧
    length l = Z.to_nat workers ∧
    sum l = total ∧
    (∀ x, x ∈ l → total / workers ≤ x ≤ total / workers + 1) ∧
    (∀ i : nat, (i < Z.to_nat (total mod workers))%nat →
                l !! i = Some (total / workers + 1)) ∧
    (∀ i : nat, (Z.to_nat (total mod workers) ≤ i < Z.to_nat workers)%nat →
                l !! i = Some (total / workers)) ∧
    message_per_client 10 3 = Return [4; 3; 3].
Proof.
  intros Ht Hw.
  pose proof (Z.mod_pos_bound total workers ltac:(lia)) as Hr.
  eexists. split; [apply message_per_client_shape; lia|].
  set (r := Z.to_nat (total mod workers)). set (c := Z.to_nat workers).
  set (n := total / workers).
  assert (r ≤ c)%nat as Hrc by (unfold r, c; lia).
  repeat split.
  - rewrite length_app, !length_replicate. lia.
  - rewrite sum_app, !sum_replicate.
    pose proof (Z.div_mod total workers ltac:(lia)) as Hdm.
    unfold r, c, n. rewrite Nat2Z.inj_sub by lia. rewrite !Z2Nat.id by lia. lia.
  - apply elem_of_app in H as [H|H]; apply elem_of_replicate in H; lia.
  - apply elem_of_app in H as [H|H]; apply elem_of_replicate in H; lia.
  - intros i Hi. rewrite lookup_app_l by (rewrite length_replicate; lia).
    by apply lookup_replicate_2.
  - intros i Hi. rewrite lookup_app_r by (rewrite length_replicate; lia).
    apply lookup_replicate_2. rewrite length_replicate. lia.
Qed.

Lemma message_per_client_fair_witness :
  ∃ l : list Z,
    message_per_client 100000 7 = Return l ∧
    length l = Z.to_nat 7 ∧
    sum l = 100000 ∧
    (∀ x, x ∈ l → 100000 / 7 ≤ x ≤ 100000 / 7 + 1) ∧
    (∀ i : nat, (i < Z.to_nat (100000 mod 7))%nat →
                l !! i = Some (100000 / 7 + 1)) ∧
    (∀ i : nat, (Z.to_nat (100000 mod 7) ≤ i < Z.to_nat 7)%nat →
                l !! i = Some (100000 / 7)) ∧
    message_per_client 10 3 = Return [4; 3; 3].
Proof. apply (message_per_client_fair 100000 7); lia. Defined.

(** C3 (as the code has it).  With zero workers the partitioner raises
    [ZeroDivisionError]; [run_benchmark] does not call it then, and the
    publishers' quota list is empty. *)
Theorem message_per_client_zero_workers (total : Z) :
  message_per_client total 0 = Raise ZeroDivisionError ∧
  publisher_quotas total 0 = Return [].
Proof. split; reflexivity. Qed.

(** C3.  The spec's [partition(total, 0) == []] does not hold of
    [message_per_client]: no empty sequence is returned. *)
Lemma zero_workers_not_empty_list :
  message_per_client 10 0 ≠ Return [].
Proof. discriminate. Qed.

(** ** Samples and sample groups *)

(** C2.  With [end == start] the duration is zero, and both [rate] and
    [throughput] raise [ZeroDivisionError]: the division is not carried out
    and no number (so no infinity, no NaN) is produced. *)
Theorem rate_throughput_zero_duration (s : Sample.t) :
  Sample.duration s = Return 0%Qc →
  Sample.rate s = Raise ZeroDivisionError ∧
  Sample.throughput s = Raise ZeroDivisionError ∧
  (∀ r : Qc, Sample.rate s ≠ Return r ∧ Sample.throughput s ≠ Return r).
Proof.
  intros Hd.
  assert (Sample.rate s = Raise ZeroDivisionError) as Hr.
  { unfold Sample.rate. rewrite Hd. simpl. unfold truediv.
    by destruct (decide (0%Qc = 0%Qc)). }
  assert (Sample.throughput s = Raise ZeroDivisionError) as Ht.
  { unfold Sample.throughput. rewrite Hd. simpl. unfold truediv.
    by destruct (decide (0%Qc = 0%Qc)). }
  rewrite Hr, Ht. by repeat split.
Qed.

Lemma rate_throughput_zero_duration_witness :
  let s := Sample.init 10 128 (PNum (Qc_of_Z 5)) (PNum (Qc_of_Z 5)) in
  Sample.rate s = Raise ZeroDivisionError ∧
  Sample.throughput s = Raise ZeroDivisionError ∧
  (∀ r : Qc, Sample.rate s ≠ Return r ∧ Sample.throughput s ≠ Return r).
Proof.
  intros s. apply (rate_throughput_zero_duration s).
  unfold s, Sample.duration. simpl. f_equal.
Defined.

Section groups.

Implicit Types (g : SampleGroup.t) (s : Sample.t) (a b : Qc).

Ltac unfold_group :=
  cbv [SampleGroup.add_sample SampleGroup.set_start SampleGroup.set_end
       SampleGroup.set_messages SampleGroup.set_msg_bytes
       SampleGroup.start SampleGroup.end_ SampleGroup.messages
       SampleGroup.msg_bytes SampleGroup.super SampleGroup.samples
       Sample.start Sample.end_ Sample.messages Sample.msg_bytes
       Sample.msg_length py_lt py_gt].

Lemma py_min_le_l a b : (py_min a b ≤ a)%Qc.
Proof.
  unfold py_min. destruct (decide (b < a)%Qc); [by apply Qclt_le_weak|done].
Qed.

Lemma py_min_le_r a b : (py_min a b ≤ b)%Qc.
Proof.
  unfold py_min. destruct (decide (b < a)%Qc); [done|by apply Qcnot_lt_le].
Qed.

Lemma py_min_cases a b : py_min a b = a ∨ py_min a b = b.
Proof. unfold py_min. destruct (decide (b < a)%Qc); auto. Qed.

Lemma py_max_ge_l a b : (a ≤ py_max a b)%Qc.
Proof.
  unfold py_max. destruct (decide (a < b)%Qc); [by apply Qclt_le_weak|done].
Qed.

Lemma py_max_ge_r a b : (b ≤ py_max a b)%Qc.
Proof.
  unfold py_max. destruct (decide (a < b)%Qc); [done|by apply Qcnot_lt_le].
Qed.

Lemma py_max_cases a b : py_max a b = a ∨ py_max a b = b.
Proof. unfold py_max. destruct (decide (a < b)%Qc); auto. Qed.

(** [add_sample] on a group that already holds a sample. *)
Lemma add_sample_next g s a b a0 b0 :
  SampleGroup.samples g ≠ [] →
  SampleGroup.start g = PNum a0 → SampleGroup.end_ g = PNum b0 →
  Sample.start s = PNum a → Sample.end_ s = PNum b →
  ∃ g', SampleGroup.add_sample g s = (g', Return ()) ∧
        SampleGroup.samples g' = SampleGroup.samples g ++ [s] ∧
        SampleGroup.messages g' = SampleGroup.messages g + Sample.messages s ∧
        SampleGroup.msg_bytes g' = SampleGroup.msg_bytes g + Sample.msg_bytes s ∧
        SampleGroup.start g' = PNum (py_min a0 a) ∧
        SampleGroup.end_ g' = PNum (py_max b0 b).
Proof.
  destruct g as [[m ml mb st en] l], s as [sm sml smb sst sen].
  unfold_group. intros Hl -> -> -> ->.
  destruct (decide (length (l ++ [_]) = 1%nat)) as [Hlen|_].
  { rewrite length_app in Hlen. simpl in Hlen. destruct l; [done|simpl in *; lia]. }
  unfold py_min, py_max.
  destruct (decide (a < a0)%Qc), (decide (b0 < b)%Qc);
    repeat case_bool_decide; try done;
    eexists; (split; [reflexivity|]); by repeat split.
Qed.

(** [add_sample] on a group without samples. *)
Lemma add_sample_first g s a b :
  SampleGroup.samples g = [] →
  Sample.start s = PNum a → Sample.end_ s = PNum b →
  ∃ g', SampleGroup.add_sample g s = (g', Return ()) ∧
        SampleGroup.samples g' = [s] ∧
        SampleGroup.messages g' = SampleGroup.messages g + Sample.messages s ∧
        SampleGroup.msg_bytes g' = SampleGroup.msg_bytes g + Sample.msg_bytes s ∧
        SampleGroup.start g' = PNum a ∧
        SampleGroup.end_ g' = PNum b.
Proof.
  destruct g as [[m ml mb st en] l], s as [sm sml smb sst sen].
  unfold_group. intros -> -> ->. simpl.
  rewrite !bool_decide_eq_false_2 by apply (irreflexivity Qclt).
  eexists; (split; [reflexivity|]); by repeat split.
Qed.

End groups.

(** C6.  The first [add_sample] of a group sets its [start] and [end] to the
    sample's; on a group that already holds a sample, [add_sample] leaves
    [start] where it was or lowers it and leaves [end] where it was or
    raises it, so that the interval also covers the new sample. *)
Theorem add_sample_widens (g : SampleGroup.t) (s : Sample.t) (a b : Qc) :
  Sample.start s = PNum a → Sample.end_ s = PNum b →
  (SampleGroup.samples g = [] →
   ∃ g', SampleGroup.add_sample g s = (g', Return ()) ∧
         SampleGroup.start g' = PNum a ∧ SampleGroup.end_ g' = PNum b) ∧
  (∀ a0 b0 : Qc,
     SampleGroup.samples g ≠ [] →
     SampleGroup.start g = PNum a0 → SampleGroup.end_ g = PNum b0 →
     ∃ g' a' b',
       SampleGroup.add_sample g s = (g', Return ()) ∧
       SampleGroup.start g' = PNum a' ∧ SampleGroup.end_ g' = PNum b' ∧
       (a' ≤ a0)%Qc ∧ (b0 ≤ b')%Qc ∧ (a' ≤ a)%Qc ∧ (b ≤ b')%Qc ∧
       (a' = a0 ∨ a' = a) ∧ (b' = b0 ∨ b' = b)).
Proof.
  intros Ha Hb. split.
  - intros Hemp.
    destruct (add_sample_first g s a b Hemp Ha Hb) as (g' & Hg' & _ & _ & _ & ? & ?).
    by exists g'.
  - intros a0 b0 Hne Ha0 Hb0.
    destruct (add_sample_next g s a b a0 b0 Hne Ha0 Hb0 Ha Hb)
      as (g' & Hg' & _ & _ & _ & Hst & Hen).
    exists g', (py_min a0 a), (py_max b0 b).
    repeat split; auto using py_min_le_l, py_min_le_r, py_max_ge_l,
      py_max_ge_r, py_min_cases, py_max_cases.
Qed.

Lemma add_sample_widens_witness :
  let s := Sample.init 3 128 (PNum (Qc_of_Z 2)) (PNum (Qc_of_Z 9)) in
  let g := (SampleGroup.add_sample SampleGroup.init
              (Sample.init 1 128 (PNum (Qc_of_Z 4)) (PNum (Qc_of_Z 6)))).1 in
  (SampleGroup.samples g = [] →
   ∃ g', SampleGroup.add_sample g s = (g', Return ()) ∧
         SampleGroup.start g' = PNum (Qc_of_Z 2) ∧
         SampleGroup.end_ g' = PNum (Qc_of_Z 9)) ∧
  (∀ a0 b0 : Qc,
     SampleGroup.samples g ≠ [] →
     SampleGroup.start g = PNum a0 → SampleGroup.end_ g = PNum b0 →
     ∃ g' a' b',
       SampleGroup.add_sample g s = (g', Return ()) ∧
       SampleGroup.start g' = PNum a' ∧ SampleGroup.end_ g' = PNum b' ∧
       (a' ≤ a0)%Qc ∧ (b0 ≤ b')%Qc ∧ (a' ≤ Qc_of_Z 2)%Qc ∧ (Qc_of_Z 9 ≤ b')%Qc ∧
       (a' = a0 ∨ a' = Qc_of_Z 2) ∧ (b' = b0 ∨ b' = Qc_of_Z 9)).
Proof.
  intros s g. apply (add_sample_widens g s (Qc_of_Z 2) (Qc_of_Z 9)); reflexivity.
Defined.

Section order.

Implicit Types (l : list Sample.t) (xs : list Qc).

Lemma sum_cons (x : Z) (zs : list Z) : sum (x :: zs) = x + sum zs.
Proof. change (x :: zs) with ([x] ++ zs). rewrite sum_app. reflexivity. Qed.

Lemma sum_perm (zs1 zs2 : list Z) : zs1 ≡ₚ zs2 → sum zs1 = sum zs2.
Proof.
  induction 1 as [|x l1 l2 _ IH|x y l|l1 l2 l3 _ IH1 _ IH2];
    rewrite ?sum_cons; lia.
Qed.

Lemma least_step (m a0 a : Qc) xs :
  least m (py_min a0 a :: xs) → least m (a0 :: a :: xs).
Proof.
  intros [Hin Hlb]. split.
  - apply elem_of_cons in Hin as [->|Hin].
    + destruct (py_min_cases a0 a) as [->| ->]; rewrite !elem_of_cons; auto.
    + rewrite !elem_of_cons; auto.
  - intros x Hx.
    assert (m ≤ py_min a0 a)%Qc as Hm by (apply Hlb, elem_of_cons; auto).
    apply elem_of_cons in Hx as [->|Hx].
    { etrans; [exact Hm|apply py_min_le_l]. }
    apply elem_of_cons in Hx as [->|Hx].
    { etrans; [exact Hm|apply py_min_le_r]. }
    apply Hlb, elem_of_cons; auto.
Qed.

Lemma greatest_step (m b0 b : Qc) xs :
  greatest m (py_max b0 b :: xs) → greatest m (b0 :: b :: xs).
Proof.
  intros [Hin Hub]. split.
  - apply elem_of_cons in Hin as [->|Hin].
    + destruct (py_max_cases b0 b) as [->| ->]; rewrite !elem_of_cons; auto.
    + rewrite !elem_of_cons; auto.
  - intros x Hx.
    assert (py_max b0 b ≤ m)%Qc as Hm by (apply Hub, elem_of_cons; auto).
    apply elem_of_cons in Hx as [->|Hx].
    { etrans; [apply py_max_ge_l|exact Hm]. }
    apply elem_of_cons in Hx as [->|Hx].
    { etrans; [apply py_max_ge_r|exact Hm]. }
    apply Hub, elem_of_cons; auto.
Qed.

Lemma least_unique (m1 m2 : Qc) xs1 xs2 :
  xs1 ≡ₚ xs2 → least m1 xs1 → least m2 xs2 → m1 = m2.
Proof.
  intros Hp [Hin1 Hlb1] [Hin2 Hlb2]. apply Qcle_antisym.
  - apply Hlb1. by rewrite Hp.
  - apply Hlb2. by rewrite <-Hp.
Qed.

Lemma greatest_unique (m1 m2 : Qc) xs1 xs2 :
  xs1 ≡ₚ xs2 → greatest m1 xs1 → greatest m2 xs2 → m1 = m2.
Proof.
  intros Hp [Hin1 Hub1] [Hin2 Hub2]. apply Qcle_antisym.
  - apply Hub2. by rewrite <-Hp.
  - apply Hub1. by rewrite Hp.
Qed.

Lemma has_bounds_inv (s : Sample.t) :
  has_bounds s → ∃ a b, Sample.start s = PNum a ∧ Sample.end_ s = PNum b.
Proof.
  unfold has_bounds. destruct (Sample.start s), (Sample.end_ s); simpl; try done.
  eauto.
Qed.

Lemma starts_cons (s : Sample.t) l (a : Qc) :
  Sample.start s = PNum a → starts (s :: l) = a :: starts l.
Proof. intros Ha. unfold starts. simpl. by rewrite Ha. Qed.

Lemma ends_cons (s : Sample.t) l (b : Qc) :
  Sample.end_ s = PNum b → ends (s :: l) = b :: ends l.
Proof. intros Hb. unfold ends. simpl. by rewrite Hb. Qed.

(** Adding the samples [l] to a group that already holds one. *)
Lemma add_samples_next l : ∀ (g : SampleGroup.t) (a0 b0 : Qc),
  SampleGroup.samples g ≠ [] →
  SampleGroup.start g = PNum a0 → SampleGroup.end_ g = PNum b0 →
  Forall has_bounds l →
  ∃ g' a' b',
    SampleGroup.add_samples g l = (g', Return ()) ∧
    SampleGroup.messages g'
      = SampleGroup.messages g + sum (Sample.messages <$> l) ∧
    SampleGroup.msg_bytes g'
      = SampleGroup.msg_bytes g + sum (Sample.msg_bytes <$> l) ∧
    SampleGroup.start g' = PNum a' ∧ SampleGroup.end_ g' = PNum b' ∧
    least a' (a0 :: starts l) ∧ greatest b' (b0 :: ends l).
Proof.
  induction l as [|s l IH]; intros g a0 b0 Hne Ha0 Hb0 Hl.
  - exists g, a0, b0. simpl. unfold sum, least, greatest. simpl.
    repeat split; try done; try lia;
      try (by apply elem_of_cons; left);
      try (by intros x [->|[]%elem_of_nil]%elem_of_cons).
  - apply Forall_cons in Hl as [Hs Hl].
    destruct (has_bounds_inv s Hs) as (a & b & Ha & Hb).
    destruct (add_sample_next g s a b a0 b0 Hne Ha0 Hb0 Ha Hb)
      as (g1 & Hg1 & Hsm & Hm & Hmb & Hst & Hen).
    destruct (IH g1 (py_min a0 a) (py_max b0 b)) as
      (g' & a' & b' & Hg' & Hm' & Hmb' & Hst' & Hen' & Hle & Hgr); auto.
    { rewrite Hsm. by destruct (SampleGroup.samples g). }
    exists g', a', b'.
    rewrite (starts_cons s l a Ha), (ends_cons s l b Hb), !fmap_cons, !sum_cons.
    split; [simpl; by rewrite Hg1, Hg'|].
    split; [lia|]. split; [lia|]. split; [done|]. split; [done|].
    split; [by apply least_step|by apply greatest_step].
Qed.

(** Adding the samples [l] to a fresh group. *)
Lemma add_samples_fresh l :
  Forall has_bounds l → l ≠ [] →
  ∃ g a b,
    SampleGroup.add_samples SampleGroup.init l = (g, Return ()) ∧
    SampleGroup.messages g = sum (Sample.messages <$> l) ∧
    SampleGroup.msg_bytes g = sum (Sample.msg_bytes <$> l) ∧
    SampleGroup.start g = PNum a ∧ SampleGroup.end_ g = PNum b ∧
    least a (starts l) ∧ greatest b (ends l).
Proof.
  destruct l as [|s l]; [done|]. intros Hl _.
  apply Forall_cons in Hl as [Hs Hl].
  destruct (has_bounds_inv s Hs) as (a & b & Ha & Hb).
  destruct (add_sample_first SampleGroup.init s a b eq_refl Ha Hb)
    as (g1 & Hg1 & Hsm & Hm & Hmb & Hst & Hen).
  destruct (add_samples_next l g1 a b) as
    (g' & a' & b' & Hg' & Hm' & Hmb' & Hst' & Hen' & Hle & Hgr); auto.
  { by rewrite Hsm. }
  exists g', a', b'.
  rewrite (starts_cons s l a Ha), (ends_cons s l b Hb), !fmap_cons, !sum_cons.
  change (SampleGroup.messages SampleGroup.init) with 0 in Hm.
  change (SampleGroup.msg_bytes SampleGroup.init) with 0 in Hmb.
  split; [simpl; by rewrite Hg1, Hg'|].
  split; [lia|]. split; [lia|]. split; [done|]. split; [done|]. by split.
Qed.

End order.

(** C5.  Two orders of the same samples, added to a fresh group, give the
    same [messages], [msg_bytes], [start] and [end]; [start] is the least
    sample start and [end] the greatest sample end. *)
Theorem add_samples_order_independent (l1 l2 : list Sample.t) :
  l1 ≡ₚ l2 → Forall has_bounds l1 →
  ∃ g1 g2,
    SampleGroup.add_samples SampleGroup.init l1 = (g1, Return ()) ∧
    SampleGroup.add_samples SampleGroup.init l2 = (g2, Return ()) ∧
    SampleGroup.messages g1 = SampleGroup.messages g2 ∧
    SampleGroup.msg_bytes g1 = SampleGroup.msg_bytes g2 ∧
    SampleGroup.start g1 = SampleGroup.start g2 ∧
    SampleGroup.end_ g1 = SampleGroup.end_ g2 ∧
    SampleGroup.messages g1 = sum (Sample.messages <$> l1) ∧
    SampleGroup.msg_bytes g1 = sum (Sample.msg_bytes <$> l1) ∧
    (l1 ≠ [] → ∃ a b, SampleGroup.start g1 = PNum a ∧ least a (starts l1) ∧
                      SampleGroup.end_ g1 = PNum b ∧ greatest b (ends l1)).
Proof.
  intros Hp Hb1.
  assert (Forall has_bounds l2) as Hb2 by (by rewrite <-Hp).
  destruct (decide (l1 = [])) as [->|Hne1].
  { apply Permutation_nil in Hp. subst l2.
    exists SampleGroup.init, SampleGroup.init.
    do 8 (split; [reflexivity|]). intros H. by destruct H. }
  assert (l2 ≠ []) as Hne2.
  { intros ->. symmetry in Hp. by apply Permutation_nil in Hp. }
  destruct (add_samples_fresh l1 Hb1 Hne1)
    as (g1 & a1 & b1 & Hg1 & Hm1 & Hmb1 & Hs1 & He1 & Hl1 & Hgr1).
  destruct (add_samples_fresh l2 Hb2 Hne2)
    as (g2 & a2 & b2 & Hg2 & Hm2 & Hmb2 & Hs2 & He2 & Hl2 & Hgr2).
  exists g1, g2.
  assert (a1 = a2) as ->.
  { apply (least_unique _ _ (starts l1) (starts l2)); [|done..].
    unfold starts. by rewrite Hp. }
  assert (b1 = b2) as ->.
  { apply (greatest_unique _ _ (ends l1) (ends l2)); [|done..].
    unfold ends. by rewrite Hp. }
  repeat split; try done.
  - rewrite Hm1, Hm2. apply sum_perm. by rewrite Hp.
  - rewrite Hmb1, Hmb2. apply sum_perm. by rewrite Hp.
  - congruence.
  - congruence.
  - intros _. eauto 10.
Qed.

Lemma add_samples_order_independent_witness :
  let s1 := Sample.init 10 128 (PNum (Qc_of_Z 4)) (PNum (Qc_of_Z 6)) in
  let s2 := Sample.init 20 128 (PNum (Qc_of_Z 2)) (PNum (Qc_of_Z 5)) in
  let s3 := Sample.init 30 128 (PNum (Qc_of_Z 3)) (PNum (Qc_of_Z 9)) in
  let l1 := [s1; s2; s3] in
  let l2 := [s2; s1; s3] in
  ∃ g1 g2,
    SampleGroup.add_samples SampleGroup.init l1 = (g1, Return ()) ∧
    SampleGroup.add_samples SampleGroup.init l2 = (g2, Return ()) ∧
    SampleGroup.messages g1 = SampleGroup.messages g2 ∧
    SampleGroup.msg_bytes g1 = SampleGroup.msg_bytes g2 ∧
    SampleGroup.start g1 = SampleGroup.start g2 ∧
    SampleGroup.end_ g1 = SampleGroup.end_ g2 ∧
    SampleGroup.messages g1 = sum (Sample.messages <$> l1) ∧
    SampleGroup.msg_bytes g1 = sum (Sample.msg_bytes <$> l1) ∧
    (l1 ≠ [] → ∃ a b, SampleGroup.start g1 = PNum a ∧ least a (starts l1) ∧
                      SampleGroup.end_ g1 = PNum b ∧ greatest b (ends l1)).
Proof.
  intros s1 s2 s3 l1 l2. apply (add_samples_order_independent l1 l2).
  - apply perm_swap.
  - repeat constructor.
Defined.

(** ** Statistics of a group *)

Section stats.

Implicit Types (l : list Sample.t) (rs : list Qc).

Lemma mapM_rate_cons (s : Sample.t) l rs :
  mapM Sample.rate (s :: l) = Return rs →
  ∃ r rs', rs = r :: rs' ∧ Sample.rate s = Return r ∧
           mapM Sample.rate l = Return rs'.
Proof.
  simpl. destruct (Sample.rate s) as [r|e]; simpl; [|done].
  destruct (mapM Sample.rate l) as [rs'|e]; simpl; [|done].
  intros [= <-]. eauto.
Qed.

Lemma mapM_rate_length l : ∀ rs,
  mapM Sample.rate l = Return rs → length rs = length l.
Proof.
  induction l as [|s l IH]; intros rs H.
  - by injection H as <-.
  - apply mapM_rate_cons in H as (r & rs' & -> & _ & H). simpl. by rewrite (IH rs').
Qed.

(** A loop that accumulates over the rates of the samples. *)
Lemma for_in_rates (f : Qc → Qc → Qc) l : ∀ rs (acc : Qc),
  mapM Sample.rate l = Return rs →
  for_in l (fun acc s => r ← Sample.rate s; Return (f acc r)) acc
  = Return (foldl f acc rs).
Proof.
  induction l as [|s l IH]; intros rs acc H.
  - by injection H as <-.
  - apply mapM_rate_cons in H as (r & rs' & -> & Hr & H).
    simpl. rewrite Hr. simpl. by apply IH.
Qed.

Lemma foldl_total (h : Qc → Qc) rs : ∀ acc : Qc,
  foldl (fun acc r => acc + h r)%Qc acc rs = (acc + total (h <$> rs))%Qc.
Proof.
  induction rs as [|r rs IH]; intros acc; simpl.
  - by rewrite Qcplus_0_r.
  - rewrite IH. by rewrite Qcplus_assoc.
Qed.

Lemma count_pos rs : rs ≠ [] → (0 < count rs)%Qc.
Proof.
  destruct rs as [|r rs]; [done|]. intros _. unfold count, Qclt, Qlt. simpl. lia.
Qed.

Lemma Qc_square_nonneg (d : Qc) : (0 ≤ d * d)%Qc.
Proof. to_Q. nra. Qed.

Lemma total_squares_nonneg (c : Qc) rs :
  (0 ≤ total ((fun x => (x - c) * (x - c)) <$> rs))%Qc.
Proof.
  induction rs as [|r rs IH]; [done|].
  rewrite fmap_cons. change (total (?x :: ?xs)) with (x + total xs)%Qc.
  apply Qcplus_nonneg_nonneg; [apply Qc_square_nonneg|exact IH].
Qed.

Lemma Qcdiv_nonneg (a b : Qc) : (0 ≤ a)%Qc → (0 < b)%Qc → (0 ≤ a / b)%Qc.
Proof.
  intros Ha Hb. to_Q. apply Qmult_le_0_compat; [done|].
  apply Qinv_le_0_compat. by apply Qlt_le_weak.
Qed.

Lemma population_variance_nonneg rs :
  rs ≠ [] → (0 ≤ population_variance rs)%Qc.
Proof.
  intros Hne. apply Qcdiv_nonneg;
    [apply total_squares_nonneg|by apply count_pos].
Qed.

Lemma truediv_count (a : Qc) rs :
  rs ≠ [] → truediv a (count rs) = Return (a / count rs)%Qc.
Proof.
  intros Hne. unfold truediv. case_decide as H0; [|done].
  pose proof (count_pos rs Hne) as Hp. rewrite H0 in Hp.
  by apply (irreflexivity Qclt) in Hp.
Qed.

(** [avg_rate] is the arithmetic mean of the rates. *)
Lemma avg_rate_mean (g : SampleGroup.t) rs :
  mapM Sample.rate (SampleGroup.samples g) = Return rs → rs ≠ [] →
  SampleGroup.avg_rate g = Return (mean rs).
Proof.
  intros Hrs Hne. unfold SampleGroup.avg_rate.
  rewrite (for_in_rates Qcplus _ rs) by done. simpl.
  rewrite <-(mapM_rate_length _ _ Hrs). fold (count rs).
  rewrite truediv_count by done.
  rewrite (foldl_total (fun r => r)), Qcplus_0_l.
  change ((fun r : Qc => r) <$> rs) with (@Datatypes.id Qc <$> rs).
  by rewrite list_fmap_id.
Qed.

(** The local [variance] is the population variance of the rates. *)
Lemma variance_population (g : SampleGroup.t) rs :
  mapM Sample.rate (SampleGroup.samples g) = Return rs → rs ≠ [] →
  SampleGroup.variance g = Return (population_variance rs).
Proof.
  intros Hrs Hne. unfold SampleGroup.variance.
  rewrite (avg_rate_mean g rs) by done. simpl.
  rewrite (for_in_rates (fun acc r => acc + (r - mean rs) * (r - mean rs))%Qc _ rs)
    by done.
  simpl. rewrite <-(mapM_rate_length _ _ Hrs). fold (count rs).
  rewrite truediv_count by done.
  by rewrite (foldl_total (fun r => (r - mean rs) * (r - mean rs))%Qc), Qcplus_0_l.
Qed.

Lemma std_dev_refines (g : SampleGroup.t) rs :
  mapM Sample.rate (SampleGroup.samples g) = Return rs → rs ≠ [] →
  SampleGroup.std_dev g = Return (population_std_dev rs).
Proof.
  intros Hrs Hne. unfold SampleGroup.std_dev.
  rewrite (variance_population g rs) by done. simpl.
  unfold SampleGroup.math_sqrt. case_decide as Hneg; [|done].
  apply Qclt_not_le in Hneg. destruct Hneg.
  by apply population_variance_nonneg.
Qed.

End stats.

Section extremes.

Implicit Types (l : list Sample.t) (rs : list Qc).

(** The loops of [min_rate] and [max_rate] after their first iteration. *)
Lemma min_rate_rest l : ∀ rs (idx : nat → nat) (m : Qc),
  (∀ i, idx i ≠ 0%nat) →
  mapM Sample.rate l = Return rs →
  for_in (imap (fun i s => (idx i, s)) l) SampleGroup.min_rate_body (Some m)
  = Return (Some (foldl py_min m rs)).
Proof.
  induction l as [|s l IH]; intros rs idx m Hidx H.
  - by injection H as <-.
  - apply mapM_rate_cons in H as (r & rs' & -> & Hr & H).
    simpl. case_decide as H0; [by apply Hidx in H0|].
    simpl. rewrite Hr. simpl.
    apply (IH rs' (idx ∘ S)); [|done]. intros i. apply Hidx.
Qed.

Lemma max_rate_rest l : ∀ rs (idx : nat → nat) (m : Qc),
  (∀ i, idx i ≠ 0%nat) →
  mapM Sample.rate l = Return rs →
  for_in (imap (fun i s => (idx i, s)) l) SampleGroup.max_rate_body (Some m)
  = Return (Some (foldl py_max m rs)).
Proof.
  induction l as [|s l IH]; intros rs idx m Hidx H.
  - by injection H as <-.
  - apply mapM_rate_cons in H as (r & rs' & -> & Hr & H).
    simpl. case_decide as H0; [by apply Hidx in H0|].
    simpl. rewrite Hr. simpl.
    apply (IH rs' (idx ∘ S)); [|done]. intros i. apply Hidx.
Qed.

Lemma min_rate_fold (g : SampleGroup.t) (r : Qc) rs :
  mapM Sample.rate (SampleGroup.samples g) = Return (r :: rs) →
  SampleGroup.min_rate g = Return (foldl py_min r (r :: rs)).
Proof.
  unfold SampleGroup.min_rate, SampleGroup.enumerate.
  destruct (SampleGroup.samples g) as [|s l]; [done|]. intros H.
  apply mapM_rate_cons in H as (r' & rs' & [= <- <-] & Hr & H).
  simpl. rewrite Hr. simpl.
  unfold compose. by rewrite (min_rate_rest l rs S (py_min r r)).
Qed.

Lemma max_rate_fold (g : SampleGroup.t) (r : Qc) rs :
  mapM Sample.rate (SampleGroup.samples g) = Return (r :: rs) →
  SampleGroup.max_rate g = Return (foldl py_max r (r :: rs)).
Proof.
  unfold SampleGroup.max_rate, SampleGroup.enumerate.
  destruct (SampleGroup.samples g) as [|s l]; [done|]. intros H.
  apply mapM_rate_cons in H as (r' & rs' & [= <- <-] & Hr & H).
  simpl. rewrite Hr. simpl.
  unfold compose. by rewrite (max_rate_rest l rs S (py_max r r)).
Qed.

Lemma population_variance_single (r : Qc) : population_variance [r] = 0%Qc.
Proof.
  unfold population_variance, mean, count, total. simpl.
  apply Qc_is_canon. to_Q. simpl. field.
Qed.

Lemma sqrt_200_3 : (Rabs (sqrt (200 / 3) - 8165 / 1000) < 1 / 1000)%R.
Proof.
  assert (8164 / 1000 < sqrt (200 / 3))%R as Hlo.
  { rewrite <-(sqrt_square (8164 / 1000)) by lra.
    apply sqrt_lt_1_alt. lra. }
  assert (sqrt (200 / 3) < 8166 / 1000)%R as Hhi.
  { rewrite <-(sqrt_square (8166 / 1000)) by lra.
    apply sqrt_lt_1_alt. lra. }
  apply Rabs_def1; lra.
Qed.

End extremes.

(** C7.  [std_dev] is the population standard deviation (variance divided
    by N) of the rates of the samples; a group of one sample has standard
    deviation 0; and a group whose rates are 10, 20, 30 has minimum 10,
    maximum 30, mean 20 and standard deviation within 0.001 of 8.165. *)
Theorem std_dev_population (g : SampleGroup.t) (rs : list Qc) :
  mapM Sample.rate (SampleGroup.samples g) = Return rs → rs ≠ [] →
  SampleGroup.std_dev g = Return (population_std_dev rs) ∧
  (length rs = 1%nat → SampleGroup.std_dev g = Return 0%R) ∧
  (rs = [Qc_of_Z 10; Qc_of_Z 20; Qc_of_Z 30] →
   SampleGroup.min_rate g = Return (Qc_of_Z 10) ∧
   SampleGroup.max_rate g = Return (Qc_of_Z 30) ∧
   SampleGroup.avg_rate g = Return (Qc_of_Z 20) ∧
   ∃ sigma : R, SampleGroup.std_dev g = Return sigma ∧
                (Rabs (sigma - 8165 / 1000) < 1 / 1000)%R).
Proof.
  intros Hrs Hne.
  pose proof (std_dev_refines g rs Hrs Hne) as Hsd.
  split; [done|]. split.
  - intros Hlen. rewrite Hsd. f_equal.
    destruct rs as [|r [|??]]; try done.
    unfold population_std_dev. rewrite population_variance_single.
    rewrite <-sqrt_0. f_equal. unfold Q2R. simpl. lra.
  - intros ->. split; [|split; [|split]].
    + rewrite (min_rate_fold g _ _ Hrs). reflexivity.
    + rewrite (max_rate_fold g _ _ Hrs). reflexivity.
    + rewrite (avg_rate_mean g _ Hrs Hne). f_equal.
      apply Qc_is_canon. reflexivity.
    + eexists. split; [exact Hsd|].
      unfold population_std_dev.
      replace (population_variance [Qc_of_Z 10; Qc_of_Z 20; Qc_of_Z 30])
        with (Q2Qc (200 # 3)) by (apply Qc_is_canon; vm_compute; reflexivity).
      replace (Q2R (Q2Qc (200 # 3))) with (200 / 3)%R
        by (change (Q2R (Q2Qc (200 # 3))) with (Q2R (200 # 3));
            unfold Q2R; cbn [Qnum Qden]; lra).
      apply sqrt_200_3.
Qed.

Lemma std_dev_population_witness :
  let g := (SampleGroup.add_samples SampleGroup.init
              [Sample.init 10 128 (PNum (Qc_of_Z 0)) (PNum (Qc_of_Z 1));
               Sample.init 40 128 (PNum (Qc_of_Z 1)) (PNum (Qc_of_Z 3));
               Sample.init 15 128 (PNum (Qc_of_Z 2)) (PNum (Q2Qc (5 # 2)))]).1 in
  let rs := [Qc_of_Z 10; Qc_of_Z 20; Qc_of_Z 30] in
  SampleGroup.std_dev g = Return (population_std_dev rs) ∧
  (length rs = 1%nat → SampleGroup.std_dev g = Return 0%R) ∧
  (rs = [Qc_of_Z 10; Qc_of_Z 20; Qc_of_Z 30] →
   SampleGroup.min_rate g = Return (Qc_of_Z 10) ∧
   SampleGroup.max_rate g = Return (Qc_of_Z 30) ∧
   SampleGroup.avg_rate g = Return (Qc_of_Z 20) ∧
   ∃ sigma : R, SampleGroup.std_dev g = Return sigma ∧
                (Rabs (sigma - 8165 / 1000) < 1 / 1000)%R).
Proof.
  intros g rs. apply (std_dev_population g rs); [|done].
  vm_compute. do 2 f_equal; [|f_equal; [|f_equal]]; apply Qc_is_canon; reflexivity.
Defined.

(** ** The subscriber *)

Ltac unfold_step :=
  cbv [step wait_complete Handler.timeout_task_iter Handler.deadline_elapsed
       Handler.handle_message Handler.reset_timeout Handler.set_result
       Handler.set_counter Handler.set_timeout Handler.set_start
       Handler.set_end Handler.set_waiter Handler.set_task
       Handler.counter Handler.message_size Handler.num_msgs
       Handler.timeout Handler.start Handler.end_ Handler._waiter
       Handler._task handler bench client_closed completed_at observable].

Section quota.

(** A step keeps two worlds that differ in [num_msgs] only so. *)
Lemma step_observable (w1 w2 : world) (e : event) :
  observable w1 = observable w2 →
  observable (step w1 e) = observable (step w2 e).
Proof.
  destruct w1 as [[c1 ms1 n1 to1 st1 en1 wa1 ta1] b1 cl1 co1].
  destruct w2 as [[c2 ms2 n2 to2 st2 en2 wa2 ta2] b2 cl2 co2].
  unfold observable at 1 2. simpl. intros [= -> -> -> -> -> -> -> -> -> ->].
  destruct e as [lt tm|time].
  - unfold_step. destruct cl2; [done|]. by destruct st2, to2.
  - unfold_step. destruct ta2; try done.
    destruct (truthy to2); [|by destruct wa2].
    destruct (py_lt (PNum time) to2) as [[]|]; simpl; try done.
    + by destruct wa2.
    + destruct (Benchmark.add_sample b2 "subscribe" _) as [b' [[]|]]; [|done].
      by destruct wa2.
Qed.

End quota.

(** C10.  Two runs of [run_subscribe] over the same events that differ in
    [num_msgs] only agree on everything observable: the samples handed to
    the benchmark, the completion time, the counter and the clock fields;
    the quota is stored and never read. *)
Theorem num_msgs_unobservable (b : Benchmark.t) (message_size n1 n2 : Z)
    (events : list event) :
  observable (run_subscribe b message_size n1 events)
  = observable (run_subscribe b message_size n2 events).
Proof.
  unfold run_subscribe.
  set (w1 := World (Handler.init message_size n1) b false None).
  set (w2 := World (Handler.init message_size n2) b false None).
  assert (observable w1 = observable w2) as H0 by reflexivity.
  clearbody w1 w2. revert w1 w2 H0.
  induction events as [|e events IH]; intros w1 w2 H0; [done|].
  simpl. apply IH. by apply step_observable.
Qed.

Section idle_timeout.

Implicit Types (w : world) (e : event) (t p now : Qc).

Lemma schedule_ok_app (l1 l2 : list event) : ∀ (s : Qc * Qc),
  schedule_ok s.1 s.2 (l1 ++ l2)
  = schedule_ok s.1 s.2 l1 &&
    schedule_ok (foldl schedule_step s l1).1 (foldl schedule_step s l1).2 l2.
Proof.
  induction l1 as [|e l1 IH]; intros [np now]; [done|].
  destruct e as [t tm|p]; simpl.
  - specialize (IH (np, t)). simpl in IH. rewrite IH. by rewrite <-!andb_assoc.
  - specialize (IH ((p + POLL_INTERVAL)%Qc, p)). simpl in IH. rewrite IH.
    by rewrite <-!andb_assoc.
Qed.

Lemma truthy_deadline t : (0 ≤ t)%Qc → truthy (PNum (t + IDLE_WINDOW)%Qc) = true.
Proof.
  intros Ht. unfold truthy. apply bool_decide_eq_true_2. intros H0.
  assert (0 < t + IDLE_WINDOW)%Qc as Hpos
    by (clear - Ht; unfold IDLE_WINDOW; to_Q; lra).
  rewrite H0 in Hpos. by apply (irreflexivity Qclt) in Hpos.
Qed.

Lemma deadline_elapsed_armed (h : Handler.t) t p :
  Handler.timeout h = PNum (t + IDLE_WINDOW)%Qc → (0 ≤ t)%Qc →
  Handler.deadline_elapsed h p
  = Return (bool_decide (t + IDLE_WINDOW ≤ p)%Qc).
Proof.
  intros Hto Ht. unfold Handler.deadline_elapsed.
  rewrite Hto, truthy_deadline by done. simpl. f_equal.
  case_bool_decide as H1; case_bool_decide as H2; try done.
  - by apply Qclt_not_le in H1.
  - by apply Qcnot_lt_le in H1.
Qed.

Lemma step_armed w e (s : Qc * Qc) (last : option Qc) :
  armed w s last →
  schedule_ok s.1 s.2 [e] = true →
  armed (step w e) (schedule_step s e) (last_step last e).
Proof.
  destruct s as [np now]. intros (Hnow & Hnp & Hrun) Hok.
  destruct e as [t tm|p]; simpl in Hok.
  - apply andb_prop in Hok as [Hok _]. apply andb_prop in Hok as [H1 H2].
    apply bool_decide_eq_true_1 in H1, H2. simpl in *.
    assert (0 ≤ t)%Qc as Ht by (etrans; done).
    split; [done|]. split.
    { clear - Hnp H1. unfold POLL_INTERVAL in *. to_Q. lra. }
    destruct w as [h b cl co]. simpl in *.
    destruct cl; simpl.
    { intros Hr. by destruct (Hrun Hr). }
    assert (np < t + IDLE_WINDOW + POLL_INTERVAL)%Qc as Hlt.
    { clear - Hnp H1. unfold POLL_INTERVAL, IDLE_WINDOW in *. to_Q. lra. }
    destruct h as [c ms n to st en wa ta].
    destruct st, to; unfold_step; intros Hta;
      destruct (Hrun Hta) as (_ & Hco & Hwa & _); simpl in Hco, Hwa;
      by subst co wa.
  - apply andb_prop in Hok as [Hok _]. apply andb_prop in Hok as [H1 H2].
    apply bool_decide_eq_true_1 in H1, H2. subst p. simpl in *.
    assert (0 ≤ np)%Qc as Hp by (etrans; done).
    split; [done|]. split; [done|].
    destruct w as [h b cl co], h as [c ms n to st en wa ta]. simpl in *.
    destruct ta; [|by unfold_step..].
    destruct (Hrun eq_refl) as (-> & -> & -> & Hlast). clear Hrun.
    destruct last as [t|].
    + destruct Hlast as (-> & Ht & Hlt). unfold_step.
      rewrite truthy_deadline by done. unfold py_lt. cbn [mbind result_bind negb].
      case_bool_decide as Hcmp; cbn [negb].
      * intros _. do 5 (split; [done|]).
        clear - Hcmp. unfold POLL_INTERVAL, IDLE_WINDOW in *. to_Q. lra.
      * by destruct (Benchmark.add_sample b "subscribe" _) as [b' [[]|]].
    + subst to. by unfold_step.
Qed.

(** The run completes at a poll only if that poll finds the deadline
    elapsed. *)
Lemma completes_when_elapsed w p p' :
  Handler._task (handler w) = Running →
  completed_at w = None → Handler._waiter (handler w) = false →
  completed_at (step w (Poll p)) = Some p' →
  p' = p ∧ Handler.deadline_elapsed (handler w) p = Return true.
Proof.
  destruct w as [[c ms n to st en wa ta] b cl co]. simpl.
  intros -> -> ->. unfold step. cbn [handler Handler._task bench].
  unfold Handler.timeout_task_iter.
  destruct (Handler.deadline_elapsed _ p) as [[]|]; [|done..].
  destruct (Benchmark.add_sample b "subscribe" _) as [b' [[]|]]; [|done].
  unfold_step. by intros [= ->].
Qed.

Lemma run_armed (events : list event) : ∀ w (s : Qc * Qc) (last : option Qc),
  armed w s last →
  schedule_ok s.1 s.2 events = true →
  armed (foldl step w events) (foldl schedule_step s events)
    (foldl last_step last events).
Proof.
  induction events as [|e events IH]; intros w s last Harm Hok; [done|].
  change (e :: events) with ([e] ++ events) in Hok.
  rewrite schedule_ok_app in Hok. apply andb_prop in Hok as [Hok1 Hok2].
  simpl. apply IH; [by apply step_armed|exact Hok2].
Qed.

End idle_timeout.

(** Once the poll task has ended, events change neither its state, nor
    the benchmark, nor the completion. *)
Lemma step_stopped (w : world) (e : event) :
  Handler._task (handler w) ≠ Running →
  Handler._task (handler (step w e)) = Handler._task (handler w) ∧
  Handler._waiter (handler (step w e)) = Handler._waiter (handler w) ∧
  bench (step w e) = bench w ∧ completed_at (step w e) = completed_at w ∧
  client_closed (step w e) = client_closed w ∧
  (client_closed w = true → step w e = w).
Proof.
  destruct w as [[c ms n to st en wa ta] b0 cl co]. simpl. intros Hta.
  destruct e as [lt tm|time].
  - unfold_step. destruct cl; [done|]. by destruct st, to.
  - unfold_step. by destruct ta.
Qed.

Lemma run_stopped (events : list event) : ∀ w : world,
  Handler._task (handler w) ≠ Running →
  Handler._task (handler (foldl step w events)) = Handler._task (handler w) ∧
  Handler._waiter (handler (foldl step w events)) = Handler._waiter (handler w) ∧
  bench (foldl step w events) = bench w ∧
  completed_at (foldl step w events) = completed_at w ∧
  (client_closed w = true → foldl step w events = w).
Proof.
  induction events as [|e events IH]; intros w Hw; [done|].
  destruct (step_stopped w e Hw) as (Hta & Hwa & Hb & Hco & Hcl & Hsame).
  destruct (IH (step w e)) as (Hta' & Hwa' & Hb' & Hco' & Hsame');
    [by rewrite Hta|].
  simpl. rewrite Hta', Hwa', Hb', Hco', Hta, Hwa, Hb, Hco.
  do 4 (split; [done|]). intros Hclosed.
  rewrite Hsame' by (by rewrite Hcl). by apply Hsame.
Qed.

Lemma run_stopped_client (events : list event) : ∀ w : world,
  Handler._task (handler w) ≠ Running →
  client_closed (foldl step w events) = client_closed w.
Proof.
  induction events as [|e events IH]; intros w Hw; [done|].
  destruct (step_stopped w e Hw) as (Hta & _ & _ & _ & Hcl & _).
  simpl. rewrite IH by (by rewrite Hta). exact Hcl.
Qed.

(** The window of the deadline.  With polls exactly 0.2 apart and while
    the poll task runs, the poll at time [p] that follows the last message
    (loop time [t]) finds the deadline elapsed exactly when [t + 0.6 <= p],
    and [p] comes before [t + 0.6 + 0.2]; the run completes at that poll
    only if the deadline has elapsed.  Whether it does complete there is
    another matter, settled below.  In scenario C, on a fresh benchmark,
    the subscriber completes at the poll at 1.2, the fifth message having
    arrived at 0.45, with counter 5. *)
Theorem done_within_poll_interval (b : Benchmark.t) (message_size num_msgs : Z)
    (p0 p t : Qc) (events : list event) :
  (0 ≤ p0)%Qc →
  schedule_ok p0 p0 (events ++ [Poll p]) = true →
  last_message_time events = Some t →
  Handler._task (handler (run_subscribe b message_size num_msgs events))
  = Running →
  (Handler.deadline_elapsed
     (handler (run_subscribe b message_size num_msgs events)) p = Return true
   ↔ (t + IDLE_WINDOW ≤ p)%Qc) ∧
  (p < t + IDLE_WINDOW + POLL_INTERVAL)%Qc ∧
  (∀ p' : Qc,
     completed_at (run_subscribe b message_size num_msgs (events ++ [Poll p]))
     = Some p' →
     p' = p ∧ (t + IDLE_WINDOW ≤ p)%Qc) ∧
  (let w := run_subscribe (Benchmark.init "127.0.0.1:61613") 128 100000
              (scenario_C ++ [Poll (Q2Qc (12 # 10))]) in
   completed_at
     (run_subscribe (Benchmark.init "127.0.0.1:61613") 128 100000 scenario_C)
   = None ∧
   completed_at w = Some (Q2Qc (12 # 10)) ∧
   Handler.counter (handler w) = 5 ∧
   Sample.messages <$> SampleGroup.samples (Benchmark.subscribe (bench w)) = [5]).
Proof.
  intros Hp0 Hok Hlast Hrun.
  pose proof (schedule_ok_app events [Poll p] (p0, p0)) as Happ.
  cbn [fst snd] in Happ. rewrite Happ in Hok. clear Happ.
  apply andb_prop in Hok as [Hok1 Hok2].
  pose proof (run_armed events
    (World (Handler.init message_size num_msgs) b false None) (p0, p0) None) as Harm.
  destruct Harm as (_ & _ & Harm).
  { split; [done|]. split; [|done].
    clear. unfold POLL_INTERVAL. to_Q. lra. }
  { exact Hok1. }
  fold (run_subscribe b message_size num_msgs events) in Harm.
  destruct (Harm Hrun) as (_ & Hco & Hwa & Hl). clear Harm.
  fold (last_message_time events) in Hl. rewrite Hlast in Hl.
  destruct Hl as (Hto & Ht & Hlt).
  simpl in Hok2. apply andb_prop in Hok2 as [Hok2 _].
  apply andb_prop in Hok2 as [Hp _]. apply bool_decide_eq_true_1 in Hp.
  rewrite <-Hp in Hlt.
  assert (Handler.deadline_elapsed
            (handler (run_subscribe b message_size num_msgs events)) p
          = Return true ↔ (t + IDLE_WINDOW ≤ p)%Qc) as Hiff.
  { rewrite (deadline_elapsed_armed _ t p Hto Ht). split.
    - intros [= H]. by apply bool_decide_eq_true_1 in H.
    - intros H. f_equal. by apply bool_decide_eq_true_2. }
  split; [exact Hiff|]. split; [exact Hlt|]. split.
  - intros p'. unfold run_subscribe at 1. rewrite foldl_app. simpl.
    fold (run_subscribe b message_size num_msgs events). intros Hdone.
    destruct (completes_when_elapsed _ p p' Hrun Hco Hwa Hdone) as [-> Hel].
    split; [done|]. by apply Hiff.
  - split; [by vm_compute|]. split; [|by vm_compute].
    apply (bool_decide_eq_true_1 _ (Decision0 := decide_rel (=) _ _)).
    by vm_compute.
Qed.


Lemma done_within_poll_interval_witness :
  let b := Benchmark.init "127.0.0.1:61613" in
  let p := Q2Qc (12 # 10) in
  let t := Q2Qc (45 # 100) in
  (Handler.deadline_elapsed (handler (run_subscribe b 128 100000 scenario_C)) p
   = Return true
   ↔ (t + IDLE_WINDOW ≤ p)%Qc) ∧
  (p < t + IDLE_WINDOW + POLL_INTERVAL)%Qc ∧
  (∀ p' : Qc,
     completed_at (run_subscribe b 128 100000 (scenario_C ++ [Poll p]))
     = Some p' →
     p' = p ∧ (t + IDLE_WINDOW ≤ p)%Qc) ∧
  (let w := run_subscribe (Benchmark.init "127.0.0.1:61613") 128 100000
              (scenario_C ++ [Poll (Q2Qc (12 # 10))]) in
   completed_at
     (run_subscribe (Benchmark.init "127.0.0.1:61613") 128 100000 scenario_C)
   = None ∧
   completed_at w = Some (Q2Qc (12 # 10)) ∧
   Handler.counter (handler w) = 5 ∧
   Sample.messages <$> SampleGroup.samples (Benchmark.subscribe (bench w)) = [5]).
Proof.
  intros b p t.
  apply (done_within_poll_interval b 128 100000 (Q2Qc 0) p t scenario_C).
  - done.
  - by vm_compute.
  - reflexivity.
  - by vm_compute.
Defined.

(** C8 (where the code departs from it).  A subscriber whose only message
    arrives at loop time [t = 0.05] and is followed by silence, with polls
    every 0.2 from time 0: the poll at [p = 0.8] lies in the window from
    [t + 0.6] to [t + 0.6 + 0.2] and finds the deadline elapsed, but the
    DONE transition does not fire there, nor at any later time: [end] was
    never set, [add_sample] raises [TypeError] on the finalized sample,
    the poll task dies, and whatever events follow the waiter has no
    result.  The sample was appended before the exception, so a
    subscriber that later receives the five messages of scenario C on the
    same benchmark does not fire DONE either. *)
Theorem single_message_done_never_fires (later later' : list event) :
  let b := Benchmark.init "127.0.0.1:61613" in
  let t := Q2Qc (5 # 100) in
  let p := Q2Qc (8 # 10) in
  let before := [Poll (Q2Qc 0); Message t (Q2Qc (1005 # 100));
                 Poll (Q2Qc (2 # 10)); Poll (Q2Qc (4 # 10));
                 Poll (Q2Qc (6 # 10))] in
  single_message = before ++ [Poll p] ∧
  schedule_ok (Q2Qc 0) (Q2Qc 0) single_message = true ∧
  last_message_time before = Some t ∧
  (t + IDLE_WINDOW ≤ p)%Qc ∧ (p < t + IDLE_WINDOW + POLL_INTERVAL)%Qc ∧
  Handler._task (handler (run_subscribe b 128 100000 before)) = Running ∧
  Handler.deadline_elapsed (handler (run_subscribe b 128 100000 before)) p
  = Return true ∧
  let w := run_subscribe b 128 100000 (single_message ++ later) in
  completed_at w = None ∧
  Handler._waiter (handler w) = false ∧
  Handler._task (handler w) = Failed TypeError ∧
  client_closed w = false ∧
  let w' := run_subscribe (bench w) 128 100000
              (scenario_C ++ Poll (Q2Qc (12 # 10)) :: later') in
  completed_at w' = None ∧
  Handler._waiter (handler w') = false ∧
  Handler._task (handler w') = Failed TypeError.
Proof.
  intros b t p before.
  split; [reflexivity|]. split; [by vm_compute|]. split; [reflexivity|].
  split; [by vm_compute|]. split; [by vm_compute|].
  split; [by vm_compute|]. split; [by vm_compute|].
  intros w.
  set (w1 := run_subscribe b 128 100000 single_message).
  assert (Handler._task (handler w1) = Failed TypeError) as Hta1
    by (by vm_compute).
  assert (w = foldl step w1 later) as Hw
    by (unfold w, w1, run_subscribe; by rewrite foldl_app).
  destruct (run_stopped later w1) as (Hta & Hwa & Hb & Hco & _);
    [by rewrite Hta1|].
  pose proof (run_stopped_client later w1) as Hcl.
  rewrite Hw, Hco, Hwa, Hta, Hb.
  rewrite Hcl by (by rewrite Hta1).
  split; [by vm_compute|]. split; [by vm_compute|]. split; [done|].
  split; [by vm_compute|].
  intros w'.
  set (w2 := run_subscribe (bench w1) 128 100000
               (scenario_C ++ [Poll (Q2Qc (12 # 10))])).
  assert (Handler._task (handler w2) = Failed TypeError) as Hta2
    by (by vm_compute).
  assert (w' = foldl step w2 later') as ->.
  { unfold w', w2, run_subscribe.
    change (scenario_C ++ Poll (Q2Qc (12 # 10)) :: later')
      with (scenario_C ++ [Poll (Q2Qc (12 # 10))] ++ later').
    by rewrite app_assoc, !foldl_app. }
  destruct (run_stopped later' w2) as (Hta' & Hwa' & _ & Hco' & _);
    [by rewrite Hta2|].
  rewrite Hco', Hwa', Hta'.
  split; [by vm_compute|]. split; [by vm_compute|done].
Qed.

Section handler_fields.

Implicit Types (w : world) (e : event) (tms : list Qc).

Lemma closed_stays w e : client_closed w = true → client_closed (step w e) = true.
Proof.
  destruct w as [[c ms n to st en wa ta] b cl co]. simpl. intros ->.
  destruct e as [lt tm|time]; [done|]. unfold_step.
  destruct ta; try done.
  destruct (truthy to); [|by destruct wa].
  destruct (py_lt (PNum time) to) as [[]|]; simpl; try done.
  - by destruct wa.
  - destruct (Benchmark.add_sample b "subscribe" _) as [b' [[]|]]; [|done].
    by destruct wa.
Qed.

Lemma closed_run (events : list event) : ∀ w,
  client_closed w = true → client_closed (foldl step w events) = true.
Proof.
  induction events as [|e events IH]; intros w Hw; [done|].
  simpl. by apply IH, closed_stays.
Qed.

Lemma end_after_snoc tms (tm : Qc) :
  tms ≠ [] → end_after (tms ++ [tm]) = PNum tm.
Proof.
  destruct tms as [|a [|a' tms]]; [done|done|]. intros _.
  change (end_after ((a :: a' :: tms) ++ [tm]))
    with (PNum (List.last (tms ++ [tm]) a')).
  by rewrite last_last.
Qed.

Lemma step_tracks w e tms :
  tracks w tms → client_closed (step w e) = false →
  tracks (step w e)
    (tms ++ match e with Message _ tm => [tm] | Poll _ => [] end).
Proof.
  destruct w as [[c ms n to st en wa ta] b cl co].
  intros (Hc & Hst & Hen & Hto). simpl in Hc, Hst, Hen, Hto.
  destruct e as [lt tm|time].
  - simpl. destruct cl; [done|]. intros _. destruct tms as [|a tms].
    + rewrite (proj2 Hto eq_refl). simpl in *. subst c st en.
      unfold tracks. unfold_step. by repeat split.
    + destruct to as [|d]; [by pose proof (proj1 Hto eq_refl)|].
      simpl in Hst. subst c st.
      unfold tracks. unfold_step. rewrite end_after_snoc by done.
      rewrite length_app. simpl length.
      split; [lia|]. split; [done|]. split; [done|]. by split.
  - rewrite app_nil_r. unfold tracks. unfold_step.
    destruct ta; try done.
    destruct (truthy to); [|by destruct wa].
    destruct (py_lt (PNum time) to) as [[]|]; simpl; try done.
    + by destruct wa.
    + destruct (Benchmark.add_sample b "subscribe" _) as [b' [[]|]]; [|done].
      by destruct wa.
Qed.

Lemma run_tracks (events : list event) : ∀ w tms,
  tracks w tms → client_closed (foldl step w events) = false →
  tracks (foldl step w events) (tms ++ message_timers events).
Proof.
  induction events as [|e events IH]; intros w tms Hw Hcl.
  - by rewrite app_nil_r.
  - simpl in Hcl.
    assert (client_closed (step w e) = false) as Hcl1.
    { destruct (client_closed (step w e)) eqn:E; [|done].
      by rewrite (closed_run events _ E) in Hcl. }
    pose proof (IH (step w e) _ (step_tracks w e tms Hw Hcl1) Hcl) as H.
    rewrite <-app_assoc in H. by destruct e.
Qed.

(** X20.  Until the client is closed, the handler has counted the
    messages, its [start] is the first message's [timer()] reading, and its
    [end] is the last message's reading once two messages have arrived:
    the first message does not set [end]. *)
Lemma run_subscribe_fields (b : Benchmark.t) (message_size num_msgs : Z)
    (events : list event) :
  client_closed (run_subscribe b message_size num_msgs events) = false →
  tracks (run_subscribe b message_size num_msgs events) (message_timers events).
Proof.
  intros Hcl. apply (run_tracks events _ []); [|exact Hcl]. by repeat split.
Qed.

End handler_fields.

(** C4 (where the code departs from it).  A subscriber that receives one
    message only never sets [end]: when its deadline elapses the sample is
    [Sample(1, 128, start, None)], [SampleGroup.add_sample] raises
    [TypeError] on [None > None] after it has appended the sample, the poll
    task dies, the waiter is never released and the run does not
    complete. *)
Theorem single_message_sample_has_no_end :
  let w := run_subscribe (Benchmark.init "127.0.0.1:61613") 128 100000
             single_message in
  SampleGroup.samples (Benchmark.subscribe (bench w))
  = [Sample.init 1 128 (PNum (Q2Qc (1005 # 100))) PNone] ∧
  Handler.end_ (handler w) = PNone ∧
  Handler._task (handler w) = Failed TypeError ∧
  Handler._waiter (handler w) = false ∧
  completed_at w = None.
Proof. by vm_compute. Qed.

(** ** Byte formatting *)

(** C9 (where the code departs from it).  From [base ** 7] on the unit
    table is exhausted and [human_bytes] raises [IndexError] instead of
    choosing a unit; the three examples of the claim hold. *)
Theorem human_bytes_unit_table_exhausted :
  human_bytes (Qc_of_Z (2 ^ 75)) false = Raise IndexError ∧
  human_bytes (Qc_of_Z (10 ^ 22)) true = Raise IndexError ∧
  human_bytes (Qc_of_Z 1023) false = Return "1023.00 B" ∧
  human_bytes (Qc_of_Z 1024) false = Return "1.00 KB" ∧
  human_bytes (Qc_of_Z 1000) true = Return "1.00 kiB".
Proof. by vm_compute. Qed.

Section units.

Lemma ilog_go_unique (fuel : nat) : ∀ base n k : Z,
  2 ≤ base → 0 ≤ k →
  n < 2 ^ (Z.of_nat fuel + 1) →
  base ^ k ≤ n < base ^ (k + 1) →
  ilog_go fuel base n = k.
Proof.
  induction fuel as [|fuel IH]; intros base n k Hb Hk Hn [Hlo Hhi].
  - simpl in *. destruct (decide (k = 0)) as [->|]; [done|].
    assert (base ^ 1 ≤ base ^ k) by (apply Z.pow_le_mono_r; lia). lia.
  - cbn [ilog_go]. case_decide as Hlt.
    + destruct (decide (k = 0)) as [->|]; [done|].
      assert (base ^ 1 ≤ base ^ k) by (apply Z.pow_le_mono_r; lia). lia.
    + assert (1 ≤ k) as Hk1.
      { destruct (decide (k = 0)) as [->|]; [|lia]. simpl in Hhi. lia. }
      rewrite (IH base (n / base) (k - 1)); try lia.
      * apply Z.div_lt_upper_bound; [lia|].
        replace (Z.of_nat (S fuel) + 1) with (Z.succ (Z.of_nat fuel + 1)) in Hn by lia.
        rewrite Z.pow_succ_r in Hn by lia.
        assert (0 < 2 ^ (Z.of_nat fuel + 1)) by (apply Z.pow_pos_nonneg; lia).
        nia.
      * replace k with (Z.succ (k - 1)) in Hlo at 1 by lia.
        rewrite Z.pow_succ_r in Hlo by lia.
        replace (k + 1) with (Z.succ k) in Hhi by lia.
        rewrite Z.pow_succ_r in Hhi by lia.
        replace (k - 1 + 1) with k by lia. split.
        -- apply Z.div_le_lower_bound; lia.
        -- apply Z.div_lt_upper_bound; lia.
Qed.

Lemma Qc_of_Z_le_floor (z : Z) (b : Qc) :
  (Qc_of_Z z ≤ b)%Qc ↔ z ≤ Qnum b / Z.pos (Qden b).
Proof.
  unfold Qcle, Qle. simpl. rewrite Z.mul_1_r. split; intros H.
  - apply Z.div_le_lower_bound; lia.
  - pose proof (Z.mul_div_le (Qnum b) (Z.pos (Qden b)) ltac:(lia)). nia.
Qed.

Lemma Qc_of_Z_gt_floor (z : Z) (b : Qc) :
  (b < Qc_of_Z z)%Qc ↔ Qnum b / Z.pos (Qden b) < z.
Proof.
  rewrite Qclt_nge, Qc_of_Z_le_floor. lia.
Qed.

Lemma log_floor_unique (base k : Z) (b : Qc) :
  2 ≤ base → 0 ≤ k →
  (Qc_of_Z (base ^ k) ≤ b)%Qc → (b < Qc_of_Z (base ^ (k + 1)))%Qc →
  log_floor base b = k.
Proof.
  intros Hb Hk Hlo%Qc_of_Z_le_floor Hhi%Qc_of_Z_gt_floor. unfold log_floor.
  set (n := Qnum b / Z.pos (Qden b)) in *.
  assert (0 < base ^ k) by (apply Z.pow_pos_nonneg; lia).
  apply ilog_go_unique; [done|done| |done].
  rewrite Z2Nat.id by apply Z.log2_nonneg.
  apply (Z.log2_spec n). lia.
Qed.

Lemma scaled_in_unit (base k : Z) (b : Qc) :
  2 ≤ base → 0 ≤ k →
  (Qc_of_Z (base ^ k) ≤ b)%Qc → (b < Qc_of_Z (base ^ (k + 1)))%Qc →
  (1 ≤ b / Qc_of_Z (base ^ k))%Qc ∧ (b / Qc_of_Z (base ^ k) < Qc_of_Z base)%Qc.
Proof.
  intros Hb Hk Hlo Hhi.
  assert (0 < base ^ k) as Hpos by (apply Z.pow_pos_nonneg; lia).
  replace (k + 1) with (Z.succ k) in Hhi by lia.
  rewrite Z.pow_succ_r in Hhi by lia.
  revert Hlo Hhi. generalize (base ^ k) Hpos. clear. intros z Hz Hlo Hhi.
  unfold Qc_of_Z in *. to_Q.
  assert (0 < inject_Z z)%Q as Hz' by (unfold Qlt; simpl; lia).
  rewrite inject_Z_mult in Hhi.
  split.
  - apply Qle_shift_div_l; [done|]. by rewrite Qmult_1_l.
  - by apply Qlt_shift_div_r.
Qed.

(** Below seven powers of the base, [human_bytes] scales by the largest
    power [base ** k] that is at most [bytes_] and names the [k]-th unit;
    by [scaled_in_unit] the scaled value lies between 1 and the base. *)
Lemma human_bytes_in_range (bytes_ : Qc) (si : bool) (k : Z) :
  let base := if si then 1000 else 1024 in
  1 ≤ k ≤ 6 →
  (Qc_of_Z (base ^ k) ≤ bytes_)%Qc → (bytes_ < Qc_of_Z (base ^ (k + 1)))%Qc →
  ∃ prefix : string,
    (if si then ["k"; "M"; "G"; "T"; "P"; "E"]
     else ["K"; "M"; "G"; "T"; "P"; "E"]) !! Z.to_nat (k - 1) = Some prefix ∧
    human_bytes bytes_ si
    = Return (format_2f (bytes_ / Qc_of_Z (base ^ k))%Qc +:+ " " +:+
              (prefix +:+ (if si then "iB" else "B"))).
Proof.
  intros base Hk Hlo Hhi.
  assert (2 ≤ base) as Hb by (unfold base; destruct si; lia).
  pose proof (log_floor_unique base k bytes_ Hb ltac:(lia) Hlo Hhi) as Hexp.
  assert (¬ (bytes_ < Qc_of_Z base)%Qc) as Hge.
  { apply Qcle_not_lt. etrans; [|exact Hlo].
    apply Qc_of_Z_le_floor. simpl. rewrite Z.div_1_r.
    replace base with (base ^ 1) at 1 by lia. apply Z.pow_le_mono_r; lia. }
  unfold human_bytes. fold base. case_decide; [done|]. rewrite Hexp.
  assert (k = 1 ∨ k = 2 ∨ k = 3 ∨ k = 4 ∨ k = 5 ∨ k = 6) as Hcases by lia.
  destruct si; destruct Hcases as [->|[->|[->|[->|[->| ->]]]]];
    eexists; (split; [reflexivity|]); reflexivity.
Qed.

End units.

(** * Further properties *)

(** ** Partitioner and quotas *)

Section quotas.

Lemma message_per_client_returns (total workers : Z) :
  1 ≤ workers →
  message_per_client total workers
  = Return (replicate (Z.to_nat (total mod workers)) (total / workers + 1)
            ++ replicate (Z.to_nat workers - Z.to_nat (total mod workers))
                 (total / workers)) ∧
  (Z.to_nat (total mod workers) ≤ Z.to_nat workers)%nat.
Proof.
  intros Hw. pose proof (Z.mod_pos_bound total workers ltac:(lia)) as Hr.
  split; [apply message_per_client_shape; lia|lia].
Qed.

Lemma sum_quotas (total workers : Z) :
  1 ≤ workers →
  sum (replicate (Z.to_nat (total mod workers)) (total / workers + 1)
       ++ replicate (Z.to_nat workers - Z.to_nat (total mod workers))
            (total / workers)) = total.
Proof.
  intros Hw. pose proof (Z.mod_pos_bound total workers ltac:(lia)) as Hr.
  rewrite sum_app, !sum_replicate.
  pose proof (Z.div_mod total workers ltac:(lia)) as Hdm.
  rewrite Nat2Z.inj_sub by lia. rewrite !Z2Nat.id by lia. lia.
Qed.

(** Reading [l[k]], [l[k+1]], ..., [l[k+r-1]] in a loop and appending
    each to the accumulator. *)
Lemma for_in_read (l : list Z) (r : nat) : ∀ (k : nat) (acc : list Z),
  (k + r ≤ length l)%nat →
  for_in (seq k r)
    (fun quotas i =>
       match l !! i with
       | Some q => Return (quotas ++ [q])
       | None => Raise IndexError
       end) acc
  = Return (acc ++ take r (drop k l)).
Proof.
  induction r as [|r IH]; intros k acc Hk; simpl.
  - by rewrite take_0, app_nil_r.
  - destruct (l !! k) as [x|] eqn:Hx;
      [|apply lookup_ge_None in Hx; lia].
    simpl. rewrite IH by lia. f_equal.
    rewrite <-app_assoc. f_equal. simpl.
    rewrite (drop_S l x k Hx). done.
Qed.

Lemma for_in_const (q : Z) (r : nat) : ∀ (k : nat) (acc : list Z),
  for_in (seq k r) (fun quotas (_ : nat) => Return (quotas ++ [q])) acc
  = Return (acc ++ replicate r q).
Proof.
  induction r as [|r IH]; intros k acc; simpl.
  - by rewrite app_nil_r.
  - rewrite IH. by rewrite <-app_assoc.
Qed.

End quotas.

(** X1.  For any total, negative ones included, and [workers >= 1] the
    quotas sum to the total, there are [workers] of them, and they never
    increase along the list and differ by at most one. *)
Theorem message_per_client_conserves (total workers : Z) :
  1 ≤ workers →
  ∃ l : list Z,
    message_per_client total workers = Return l ∧
    length l = Z.to_nat workers ∧
    sum l = total ∧
    (∀ (i j : nat) (x y : Z),
       (i ≤ j)%nat → l !! i = Some x → l !! j = Some y → y ≤ x ≤ y + 1).
Proof.
  intros Hw. destruct (message_per_client_returns total workers Hw) as [Hl Hle].
  eexists. split; [exact Hl|].
  split; [rewrite length_app, !length_replicate; lia|].
  split; [by apply sum_quotas|].
  intros i j x y Hij Hi Hj.
  apply lookup_app_Some in Hi as [Hi|[Hi1 Hi]];
    apply lookup_replicate in Hi as [-> Hi2];
    apply lookup_app_Some in Hj as [Hj|[Hj1 Hj]];
    apply lookup_replicate in Hj as [-> Hj2];
    rewrite ?length_replicate in *; lia.
Qed.

Lemma message_per_client_conserves_witness :
  ∃ l : list Z,
    message_per_client (-7) 3 = Return l ∧
    length l = Z.to_nat 3 ∧
    sum l = -7 ∧
    (∀ (i j : nat) (x y : Z),
       (i ≤ j)%nat → l !! i = Some x → l !! j = Some y → y ≤ x ≤ y + 1).
Proof. apply (message_per_client_conserves (-7) 3). lia. Defined.

(** X2.  The partitioner raises for no client count but zero: for
    [clients <> 0] it returns a list, empty when [clients] is negative, and
    its indexed increments stay in range. *)
Theorem message_per_client_total_but_zero (messages clients : Z) :
  clients ≠ 0 →
  ∃ l : list Z,
    message_per_client messages clients = Return l ∧
    Z.of_nat (length l) = Z.max clients 0.
Proof.
  intros Hc. destruct (decide (0 < clients)) as [Hpos|Hneg].
  - destruct (message_per_client_returns messages clients ltac:(lia)) as [Hl Hle].
    eexists. split; [exact Hl|].
    rewrite length_app, !length_replicate. lia.
  - exists []. split; [|simpl; lia].
    pose proof (Z.mod_neg_bound messages clients ltac:(lia)) as Hr.
    unfold message_per_client, floordiv, pymod, range.
    destruct (decide (clients = 0)); [done|]. simpl.
    replace (Z.to_nat (messages mod clients)) with 0%nat by lia.
    replace (Z.to_nat clients) with 0%nat by lia. done.
Qed.

Lemma message_per_client_total_but_zero_witness :
  ∃ l : list Z,
    message_per_client 10 (-3) = Return l ∧
    Z.of_nat (length l) = Z.max (-3) 0.
Proof. apply (message_per_client_total_but_zero 10 (-3)). lia. Defined.

(** X3.  With at least one publisher, [run_benchmark] hands the
    publishers exactly the partitioner's quotas, one each, without an
    [IndexError] or an unbound [pub_messages], and the quotas sum to [n]. *)
Theorem publisher_quotas_conserve (n np : Z) :
  1 ≤ np →
  ∃ l : list Z,
    publisher_quotas n np = Return l ∧
    message_per_client n np = Return l ∧
    length l = Z.to_nat np ∧
    sum l = n.
Proof.
  intros Hnp. destruct (message_per_client_returns n np Hnp) as [Hl Hle].
  eexists. split; [|split; [exact Hl|]].
  - unfold publisher_quotas. destruct (decide (np ≠ 0)); [|lia].
    rewrite Hl. simpl. unfold range. rewrite for_in_read.
    + simpl. rewrite drop_0. apply f_equal, take_ge.
      rewrite length_app, !length_replicate. lia.
    + rewrite length_app, !length_replicate. lia.
  - split; [rewrite length_app, !length_replicate; lia|by apply sum_quotas].
Qed.

Lemma publisher_quotas_conserve_witness :
  ∃ l : list Z,
    publisher_quotas 100000 3 = Return l ∧
    message_per_client 100000 3 = Return l ∧
    length l = Z.to_nat 3 ∧
    sum l = 100000.
Proof. apply (publisher_quotas_conserve 100000 3). lia. Defined.

(** X4.  With at least one subscriber, every subscriber is passed the
    same quota [n // ns]; the quotas sum to [n - n % ns], which is [n] only
    when [ns] divides [n]: the remainder is dropped. *)
Theorem subscriber_quotas_drop_remainder (n ns : Z) :
  1 ≤ ns →
  subscriber_quotas n ns = Return (replicate (Z.to_nat ns) (n / ns)) ∧
  sum (replicate (Z.to_nat ns) (n / ns)) = n - n mod ns ∧
  (sum (replicate (Z.to_nat ns) (n / ns)) = n ↔ n mod ns = 0).
Proof.
  intros Hns.
  assert (sum (replicate (Z.to_nat ns) (n / ns)) = n - n mod ns) as Hsum.
  { rewrite sum_replicate, Z2Nat.id by lia.
    pose proof (Z.div_mod n ns ltac:(lia)). lia. }
  split; [|split; [exact Hsum|lia]].
  unfold subscriber_quotas, floordiv.
  destruct (decide (ns ≠ 0)); [|lia].
  destruct (decide (ns = 0)); [lia|]. simpl.
  unfold range. by rewrite for_in_const.
Qed.

Lemma subscriber_quotas_drop_remainder_witness :
  subscriber_quotas 10 3 = Return (replicate (Z.to_nat 3) (10 / 3)) ∧
  sum (replicate (Z.to_nat 3) (10 / 3)) = 10 - 10 mod 3 ∧
  (sum (replicate (Z.to_nat 3) (10 / 3)) = 10 ↔ 10 mod 3 = 0).
Proof. apply (subscriber_quotas_drop_remainder 10 3). lia. Defined.

(** ** Byte formatting, all inputs *)

Section formatting.

Lemma Qc_of_Z_lt (a b : Z) : (Qc_of_Z a < Qc_of_Z b)%Qc ↔ a < b.
Proof. unfold Qclt, Qlt. simpl. lia. Qed.

Lemma Qc_of_Z_le (a b : Z) : (Qc_of_Z a ≤ Qc_of_Z b)%Qc ↔ a ≤ b.
Proof. unfold Qcle, Qle. simpl. lia. Qed.

Lemma Qc_of_Z_opp (n : Z) : (- Qc_of_Z n)%Qc = Qc_of_Z (- n).
Proof. apply Qc_is_canon. unfold Qc_of_Z. to_Q. reflexivity. Qed.

Lemma Qc_of_Z_mul (a b : Z) : (Qc_of_Z a * Qc_of_Z b)%Qc = Qc_of_Z (a * b).
Proof. apply Qc_is_canon. unfold Qc_of_Z. to_Q. unfold Qeq. simpl. lia. Qed.

Lemma round_half_even_int (m : Z) : round_half_even (Qc_of_Z m) = m.
Proof.
  unfold round_half_even. simpl. rewrite Z.div_1_r, Z.mod_1_r.
  by destruct (decide (2 * 0 < 1)).
Qed.

Lemma format_2f_int (n : Z) :
  format_2f (Qc_of_Z n)
  = (if decide (n < 0) then "-" else "") +:+ pretty (Z.abs n) +:+ ".00".
Proof.
  unfold format_2f.
  assert ((if bool_decide (Qc_of_Z n < 0)%Qc then (- Qc_of_Z n)%Qc
           else Qc_of_Z n) = Qc_of_Z (Z.abs n)) as ->.
  { case_bool_decide as Hn.
    - apply (Qc_of_Z_lt n 0) in Hn. rewrite Qc_of_Z_opp. f_equal. lia.
    - f_equal. assert (¬ n < 0) by (by rewrite <-(Qc_of_Z_lt n 0)). lia. }
  rewrite Qc_of_Z_mul, round_half_even_int.
  rewrite Z.div_mul, Z.mod_mul by lia.
  assert (bool_decide (Qc_of_Z n < 0)%Qc = bool_decide (n < 0)) as ->.
  { apply bool_decide_ext, (Qc_of_Z_lt n 0). }
  destruct (decide (n < 0)).
  - by rewrite bool_decide_eq_true_2.
  - by rewrite bool_decide_eq_false_2.
Qed.

End formatting.

(** X5.  An integer byte count [n] with [-2 ** 53 <= n < base] is printed
    in both modes as the integer with two zero decimals and the suffix
    [" B"].  Python's [format] turns the [int] into a [float] before it
    prints; the lower bound keeps [n] among the integers that conversion
    leaves unchanged, so that printing the exact value, as [format_2f]
    does, prints what Python prints. *)
Theorem human_bytes_small_int (n : Z) (si : bool) :
  - 2 ^ 53 ≤ n < (if si then 1000 else 1024) →
  human_bytes (Qc_of_Z n) si
  = Return (((if decide (n < 0) then "-" else "") +:+ pretty (Z.abs n)
             +:+ ".00") +:+ " B").
Proof.
  intros [_ Hn]. unfold human_bytes.
  rewrite decide_True by (by apply Qc_of_Z_lt).
  by rewrite format_2f_int.
Qed.

Lemma human_bytes_small_int_witness :
  human_bytes (Qc_of_Z 512) true
  = Return (((if decide (512 < 0) then "-" else "") +:+ pretty (Z.abs 512)
             +:+ ".00") +:+ " B").
Proof. apply (human_bytes_small_int 512 true). simpl. lia. Defined.

(** ** Samples, all inputs *)

Section sample_outcomes.

Lemma Qcminus_eq_0 (a b : Qc) : (b - a = 0)%Qc ↔ a = b.
Proof.
  split.
  - intros H. apply Qc_is_canon. assert (this (b - a)%Qc == 0)%Q as H0 by (by rewrite H).
    revert H0. clear. to_Q. intros. lra.
  - intros ->. ring.
Qed.

End sample_outcomes.

(** X8.  [rate] returns a number exactly for a sample whose two bounds
    are numbers and differ, and then it is [messages / (end - start)]; it
    raises [TypeError] when a bound is [None] and [ZeroDivisionError] when
    the bounds are equal numbers. *)
Theorem rate_outcome (s : Sample.t) :
  (∀ r : Qc,
     Sample.rate s = Return r ↔
     ∃ a b : Qc, Sample.start s = PNum a ∧ Sample.end_ s = PNum b ∧ a ≠ b ∧
                 r = (Qc_of_Z (Sample.messages s) / (b - a))%Qc) ∧
  (Sample.rate s = Raise TypeError ↔ has_bounds s = false) ∧
  (Sample.rate s = Raise ZeroDivisionError ↔
   ∃ a : Qc, Sample.start s = PNum a ∧ Sample.end_ s = PNum a).
Proof.
  destruct s as [m len mb [|a] [|b]];
    unfold Sample.rate, Sample.duration, has_bounds; simpl.
  1-3: split; [|split]; [intros r; split; [done|by intros (?&?&?&?&?)]
                        |done|split; [done|by intros (?&?&?)]].
  unfold truediv. destruct (decide (b - a = 0)%Qc) as [H0|H0].
  - apply Qcminus_eq_0 in H0 as ->. split; [|split].
    + intros r. split; [done|]. by intros (?&?&[= ->]&[= ->]&?&?).
    + done.
    + split; [eauto|done].
  - assert (a ≠ b) as Hab by (by rewrite <-Qcminus_eq_0).
    split; [|split].
    + intros r. split.
      * intros [= <-]. eauto 10.
      * by intros (?&?&[= <-]&[= <-]&_&->).
    + done.
    + split; [done|]. by intros (?&[= ->]&[= ->]).
Qed.

(** ** Sample groups, all inputs *)

Section group_outcomes.

Implicit Types (g : SampleGroup.t) (s : Sample.t).

(** [add_sample] appends the sample and adds to the totals before it
    compares any bound. *)
Lemma add_sample_stores g s :
  SampleGroup.samples (SampleGroup.add_sample g s).1
  = SampleGroup.samples g ++ [s] ∧
  SampleGroup.messages (SampleGroup.add_sample g s).1
  = SampleGroup.messages g + Sample.messages s ∧
  SampleGroup.msg_bytes (SampleGroup.add_sample g s).1
  = SampleGroup.msg_bytes g + Sample.msg_bytes s.
Proof.
  destruct g as [[m ml mb st en] l], s as [sm sml smb sst sen].
  cbv [SampleGroup.add_sample SampleGroup.set_start SampleGroup.set_end
       SampleGroup.set_messages SampleGroup.set_msg_bytes
       SampleGroup.start SampleGroup.end_ SampleGroup.messages
       SampleGroup.msg_bytes SampleGroup.super SampleGroup.samples
       Sample.start Sample.end_ Sample.messages Sample.msg_bytes
       Sample.msg_length].
  destruct (decide (length (l ++ [_]) = 1%nat));
    repeat match goal with
           | |- context [py_lt ?x ?y] => destruct (py_lt x y) as [[]|]
           | |- context [py_gt ?x ?y] => destruct (py_gt x y) as [[]|]
           end; done.
Qed.

Lemma add_sample_ready g s :
  bounds_ready g →
  (SampleGroup.add_sample g s).2
  = (if has_bounds s then Return () else Raise TypeError) ∧
  (has_bounds s = true → bounds_ready (SampleGroup.add_sample g s).1).
Proof.
  intros Hg. destruct (has_bounds s) eqn:Hs.
  - destruct (has_bounds_inv s) as (a & b & Ha & Hb); [by rewrite Hs|].
    destruct (decide (SampleGroup.samples g = [])) as [Hemp|Hne].
    + destruct (add_sample_first g s a b Hemp Ha Hb)
        as (g' & -> & _ & _ & _ & Hst & Hen).
      split; [done|]. intros _. right. simpl. by rewrite Hst, Hen.
    + destruct Hg as [Hg|[Hst Hen]]; [done|].
      destruct (SampleGroup.start g) as [|a0] eqn:Ea; [done|].
      destruct (SampleGroup.end_ g) as [|b0] eqn:Eb; [done|].
      destruct (add_sample_next g s a b a0 b0 Hne Ea Eb Ha Hb)
        as (g' & -> & _ & _ & _ & Hst' & Hen').
      split; [done|]. intros _. right. simpl. by rewrite Hst', Hen'.
  - split; [|done].
    destruct g as [[m ml mb st en] l], s as [sm sml smb sst sen].
    unfold has_bounds in Hs. simpl in Hs.
    unfold bounds_ready, SampleGroup.start, SampleGroup.end_ in Hg.
    simpl in Hg.
    cbv [SampleGroup.add_sample SampleGroup.set_start SampleGroup.set_end
         SampleGroup.set_messages SampleGroup.set_msg_bytes
         SampleGroup.start SampleGroup.end_ SampleGroup.messages
         SampleGroup.msg_bytes SampleGroup.super SampleGroup.samples
         Sample.start Sample.end_ Sample.messages Sample.msg_bytes
         Sample.msg_length].
    destruct Hg as [->|[Hst Hen]].
    + simpl. destruct sst, sen; simpl in *; try done; by case_bool_decide.
    + destruct st, en; try done.
      destruct (decide (length (l ++ [_]) = 1%nat)); simpl;
        destruct sst, sen; simpl in *; try done; by case_bool_decide.
Qed.

End group_outcomes.

(** X10.  [add_sample] keeps the totals of a group in step with its stored
    samples, also when it raises: the sample is appended and its messages
    and bytes are added before any bound is compared. *)
Theorem add_sample_keeps_totals (g : SampleGroup.t) (s : Sample.t) :
  totals_consistent g →
  SampleGroup.samples (SampleGroup.add_sample g s).1
  = SampleGroup.samples g ++ [s] ∧
  totals_consistent (SampleGroup.add_sample g s).1.
Proof.
  intros [Hm Hmb]. destruct (add_sample_stores g s) as (Hs & Hm' & Hmb').
  split; [done|]. unfold totals_consistent.
  rewrite Hs, Hm', Hmb', !fmap_app, !sum_app, Hm, Hmb.
  unfold sum. simpl. lia.
Qed.

Lemma add_sample_keeps_totals_witness :
  let s := Sample.init 7 128 PNone (PNum (Qc_of_Z 3)) in
  SampleGroup.samples (SampleGroup.add_sample SampleGroup.init s).1
  = SampleGroup.samples SampleGroup.init ++ [s] ∧
  totals_consistent (SampleGroup.add_sample SampleGroup.init s).1.
Proof.
  intros s. apply (add_sample_keeps_totals SampleGroup.init s). by split.
Defined.

(** X11.  On a group that is empty or has numeric bounds, [add_sample]
    returns exactly for a sample whose two bounds are numbers, and the
    group then has numeric bounds; for a sample with a [None] bound, and
    only then, it raises [TypeError]. *)
Theorem add_sample_outcome (g : SampleGroup.t) (s : Sample.t) :
  bounds_ready g →
  ((SampleGroup.add_sample g s).2 = Return () ↔ has_bounds s = true) ∧
  ((SampleGroup.add_sample g s).2 = Raise TypeError ↔ has_bounds s = false) ∧
  (∀ e : exn, (SampleGroup.add_sample g s).2 = Raise e → e = TypeError) ∧
  (has_bounds s = true → bounds_ready (SampleGroup.add_sample g s).1).
Proof.
  intros Hg. destruct (add_sample_ready g s Hg) as [Hr Hready].
  rewrite Hr. destruct (has_bounds s).
  - split; [done|]. split; [done|]. split; [done|]. exact Hready.
  - split; [done|]. split; [done|]. split; [|done]. by intros e [= <-].
Qed.

Lemma add_sample_outcome_witness :
  let g := SampleGroup.init in
  let s := Sample.init 7 128 (PNum (Qc_of_Z 1)) PNone in
  ((SampleGroup.add_sample g s).2 = Return () ↔ has_bounds s = true) ∧
  ((SampleGroup.add_sample g s).2 = Raise TypeError ↔ has_bounds s = false) ∧
  (∀ e : exn, (SampleGroup.add_sample g s).2 = Raise e → e = TypeError) ∧
  (has_bounds s = true → bounds_ready (SampleGroup.add_sample g s).1).
Proof.
  intros g s. apply (add_sample_outcome g s). by left.
Defined.

Section aggregate.

Implicit Types (l : list Sample.t) (rs : list Qc).

Lemma foldl_py_min_least rs : ∀ m : Qc, least (foldl py_min m rs) (m :: rs).
Proof.
  induction rs as [|r rs IH]; intros m; simpl.
  - split; [by apply elem_of_cons; left|].
    intros x [->|[]%elem_of_nil]%elem_of_cons. done.
  - by apply least_step.
Qed.

Lemma foldl_py_max_greatest rs : ∀ m : Qc, greatest (foldl py_max m rs) (m :: rs).
Proof.
  induction rs as [|r rs IH]; intros m; simpl.
  - split; [by apply elem_of_cons; left|].
    intros x [->|[]%elem_of_nil]%elem_of_cons. done.
  - by apply greatest_step.
Qed.

(** [min_rate] and [max_rate] are the least and the greatest rate. *)
Lemma extremes_of_rates (g : SampleGroup.t) rs :
  mapM Sample.rate (SampleGroup.samples g) = Return rs → rs ≠ [] →
  ∃ lo hi : Qc,
    SampleGroup.min_rate g = Return lo ∧ SampleGroup.max_rate g = Return hi ∧
    least lo rs ∧ greatest hi rs.
Proof.
  intros Hrs Hne. destruct rs as [|r rs]; [done|].
  exists (foldl py_min r (r :: rs)), (foldl py_max r (r :: rs)).
  split; [by apply min_rate_fold|]. split; [by apply max_rate_fold|].
  split.
  - destruct (foldl_py_min_least (r :: rs) r) as [Hin Hlb]. split.
    + apply elem_of_cons in Hin as [->|Hin]; [by apply elem_of_cons; left|done].
    + intros x Hx. apply Hlb. by apply elem_of_cons; right.
  - destruct (foldl_py_max_greatest (r :: rs) r) as [Hin Hub]. split.
    + apply elem_of_cons in Hin as [->|Hin]; [by apply elem_of_cons; left|done].
    + intros x Hx. apply Hub. by apply elem_of_cons; right.
Qed.

End aggregate.

(** X13.  When every sample has a rate, [min_rate] returns the least of
    the per-sample rates and [max_rate] the greatest, so that
    [min_rate <= max_rate]. *)
Theorem min_max_rate_extremes (g : SampleGroup.t) (rs : list Qc) :
  mapM Sample.rate (SampleGroup.samples g) = Return rs → rs ≠ [] →
  ∃ lo hi : Qc,
    SampleGroup.min_rate g = Return lo ∧ SampleGroup.max_rate g = Return hi ∧
    least lo rs ∧ greatest hi rs ∧ (lo ≤ hi)%Qc.
Proof.
  intros Hrs Hne.
  destruct (extremes_of_rates g rs Hrs Hne) as (lo & hi & Hlo & Hhi & Hl & Hg).
  exists lo, hi. split; [done|]. split; [done|]. split; [done|].
  split; [done|].
  destruct Hl as [Hin _], Hg as [_ Hub]. by apply Hub.
Qed.

Lemma min_max_rate_extremes_witness :
  let s1 := Sample.init 10 128 (PNum (Qc_of_Z 0)) (PNum (Qc_of_Z 2)) in
  let s2 := Sample.init 30 128 (PNum (Qc_of_Z 1)) (PNum (Qc_of_Z 3)) in
  let g := (SampleGroup.add_samples SampleGroup.init [s1; s2]).1 in
  ∃ lo hi : Qc,
    SampleGroup.min_rate g = Return lo ∧ SampleGroup.max_rate g = Return hi ∧
    least lo [Qc_of_Z 5; Qc_of_Z 15] ∧ greatest hi [Qc_of_Z 5; Qc_of_Z 15] ∧
    (lo ≤ hi)%Qc.
Proof.
  intros s1 s2 g.
  apply (min_max_rate_extremes g [Qc_of_Z 5; Qc_of_Z 15]).
  - vm_compute. do 2 f_equal; [|f_equal]; apply Qc_is_canon; reflexivity.
  - discriminate.
Defined.

(** X12.  Adding samples with numeric bounds, one of which ends after it
    starts, to a fresh group gives a group whose own [rate] and
    [throughput] (inherited from [Sample]) return: the totals divided by
    the span from the least start to the greatest end. *)
Theorem group_rate_defined (l : list Sample.t) (s0 : Sample.t) (a0 b0 : Qc) :
  Forall has_bounds l → s0 ∈ l →
  Sample.start s0 = PNum a0 → Sample.end_ s0 = PNum b0 → (a0 < b0)%Qc →
  ∃ (g : SampleGroup.t) (a b : Qc),
    SampleGroup.add_samples SampleGroup.init l = (g, Return ()) ∧
    least a (starts l) ∧ greatest b (ends l) ∧ (a < b)%Qc ∧
    Sample.rate (SampleGroup.super g)
    = Return (Qc_of_Z (sum (Sample.messages <$> l)) / (b - a))%Qc ∧
    Sample.throughput (SampleGroup.super g)
    = Return (Qc_of_Z (sum (Sample.msg_bytes <$> l)) / (b - a))%Qc.
Proof.
  intros Hl Hin Ha0 Hb0 Hlt.
  assert (l ≠ []) as Hne by (intros ->; by apply elem_of_nil in Hin).
  destruct (add_samples_fresh l Hl Hne)
    as (g & a & b & Hg & Hm & Hmb & Hst & Hen & Hle & Hgr).
  exists g, a, b. split; [done|]. split; [done|]. split; [done|].
  assert (a < b)%Qc as Hab.
  { apply Qcle_lt_trans with a0; [|apply Qclt_le_trans with b0; [done|]].
    - apply Hle. apply list_elem_of_omap. exists s0. by rewrite Ha0.
    - apply Hgr. apply list_elem_of_omap. exists s0. by rewrite Hb0. }
  split; [done|].
  assert ((b - a)%Qc ≠ 0%Qc) as Hd.
  { rewrite Qcminus_eq_0. intros ->. by apply (irreflexivity Qclt) in Hab. }
  unfold SampleGroup.start, SampleGroup.end_, SampleGroup.messages,
    SampleGroup.msg_bytes in *.
  unfold Sample.rate, Sample.throughput, Sample.duration.
  rewrite Hst, Hen, Hm, Hmb. simpl. unfold truediv.
  by rewrite !decide_False by done.
Qed.

Lemma group_rate_defined_witness :
  let s1 := Sample.init 10 128 (PNum (Qc_of_Z 4)) (PNum (Qc_of_Z 4)) in
  let s2 := Sample.init 20 128 (PNum (Qc_of_Z 2)) (PNum (Qc_of_Z 5)) in
  let l := [s1; s2] in
  ∃ (g : SampleGroup.t) (a b : Qc),
    SampleGroup.add_samples SampleGroup.init l = (g, Return ()) ∧
    least a (starts l) ∧ greatest b (ends l) ∧ (a < b)%Qc ∧
    Sample.rate (SampleGroup.super g)
    = Return (Qc_of_Z (sum (Sample.messages <$> l)) / (b - a))%Qc ∧
    Sample.throughput (SampleGroup.super g)
    = Return (Qc_of_Z (sum (Sample.msg_bytes <$> l)) / (b - a))%Qc.
Proof.
  intros s1 s2 l.
  apply (group_rate_defined l s2 (Qc_of_Z 2) (Qc_of_Z 5)).
  - repeat constructor.
  - apply elem_of_cons; right. apply elem_of_cons; by left.
  - reflexivity.
  - reflexivity.
  - apply Qc_of_Z_lt. lia.
Defined.

Section degenerate_statistics.

Implicit Types (l : list Sample.t) (rs : list Qc).

Lemma for_in_app {A S : Type} (xs ys : list A) (body : S → A → result S) :
  ∀ s : S, for_in (xs ++ ys) body s = for_in xs body s ≫= for_in ys body.
Proof.
  induction xs as [|x xs IH]; intros s; [done|].
  simpl. destruct (body s x) as [s'|e]; simpl; [apply IH|done].
Qed.

(** A loop raises what its body raises at the first element it fails on. *)
Lemma for_in_raises {A S : Type} (xs ys : list A) (x : A)
    (body : S → A → result S) (s s' : S) (e : exn) :
  for_in xs body s = Return s' → body s' x = Raise e →
  for_in (xs ++ x :: ys) body s = Raise e.
Proof.
  intros Hxs Hx. rewrite for_in_app, Hxs. simpl. by rewrite Hx.
Qed.

Lemma enumerate_app {A : Type} (xs ys : list A) :
  SampleGroup.enumerate (xs ++ ys)
  = SampleGroup.enumerate xs
    ++ imap (fun i x => ((length xs + i)%nat, x)) ys.
Proof. unfold SampleGroup.enumerate. by rewrite imap_app. Qed.

Lemma min_loop_returns l rs :
  mapM Sample.rate l = Return rs →
  ∃ m, for_in (SampleGroup.enumerate l) SampleGroup.min_rate_body None
       = Return m.
Proof.
  destruct l as [|s l]; [by eauto|]. intros H.
  apply mapM_rate_cons in H as (r & rs' & -> & Hr & H).
  unfold SampleGroup.enumerate. simpl. rewrite Hr. simpl.
  unfold compose. rewrite (min_rate_rest l rs' S (py_min r r)); by eauto.
Qed.

Lemma max_loop_returns l rs :
  mapM Sample.rate l = Return rs →
  ∃ m, for_in (SampleGroup.enumerate l) SampleGroup.max_rate_body None
       = Return m.
Proof.
  destruct l as [|s l]; [by eauto|]. intros H.
  apply mapM_rate_cons in H as (r & rs' & -> & Hr & H).
  unfold SampleGroup.enumerate. simpl. rewrite Hr. simpl.
  unfold compose. rewrite (max_rate_rest l rs' S (py_max r r)); by eauto.
Qed.

Lemma min_body_raises (m : option Qc) (i : nat) (s : Sample.t) (e : exn) :
  Sample.rate s = Raise e → SampleGroup.min_rate_body m (i, s) = Raise e.
Proof. intros H. unfold SampleGroup.min_rate_body. rewrite H. by case_decide. Qed.

Lemma max_body_raises (m : option Qc) (i : nat) (s : Sample.t) (e : exn) :
  Sample.rate s = Raise e → SampleGroup.max_rate_body m (i, s) = Raise e.
Proof. intros H. unfold SampleGroup.max_rate_body. rewrite H. by case_decide. Qed.

Lemma count_nil_zero : count [] = 0%Qc.
Proof. by apply Qc_is_canon. Qed.

End degenerate_statistics.

(** X14.  On a group without samples [min_rate] and [max_rate] raise
    [UnboundLocalError] (their loop never binds [m]) and [avg_rate] and
    [std_dev] raise [ZeroDivisionError] (they divide by the number of
    samples). *)
Theorem statistics_of_empty_group (g : SampleGroup.t) :
  SampleGroup.samples g = [] →
  SampleGroup.min_rate g = Raise UnboundLocalError ∧
  SampleGroup.max_rate g = Raise UnboundLocalError ∧
  SampleGroup.avg_rate g = Raise ZeroDivisionError ∧
  SampleGroup.std_dev g = Raise ZeroDivisionError.
Proof.
  intros Hemp.
  assert (SampleGroup.avg_rate g = Raise ZeroDivisionError) as Havg.
  { unfold SampleGroup.avg_rate. rewrite Hemp. simpl.
    change (Qc_of_Z (Z.of_nat 0)) with (count []).
    rewrite count_nil_zero. unfold truediv.
    by rewrite decide_True. }
  unfold SampleGroup.min_rate, SampleGroup.max_rate, SampleGroup.std_dev,
    SampleGroup.variance.
  rewrite Havg, Hemp. done.
Qed.

Lemma statistics_of_empty_group_witness :
  SampleGroup.min_rate SampleGroup.init = Raise UnboundLocalError ∧
  SampleGroup.max_rate SampleGroup.init = Raise UnboundLocalError ∧
  SampleGroup.avg_rate SampleGroup.init = Raise ZeroDivisionError ∧
  SampleGroup.std_dev SampleGroup.init = Raise ZeroDivisionError.
Proof. apply (statistics_of_empty_group SampleGroup.init). reflexivity. Defined.

(** X15.  The first sample of a group whose [rate] raises decides all four
    statistics: [min_rate], [max_rate], [avg_rate] and [std_dev] raise
    that same exception, whatever the other samples are. *)
Theorem statistics_raise_with_sample (g : SampleGroup.t)
    (l1 l2 : list Sample.t) (s : Sample.t) (rs1 : list Qc) (e : exn) :
  SampleGroup.samples g = l1 ++ s :: l2 →
  mapM Sample.rate l1 = Return rs1 →
  Sample.rate s = Raise e →
  SampleGroup.min_rate g = Raise e ∧
  SampleGroup.max_rate g = Raise e ∧
  SampleGroup.avg_rate g = Raise e ∧
  SampleGroup.std_dev g = Raise e.
Proof.
  intros Hg Hrs1 Hs.
  assert (SampleGroup.avg_rate g = Raise e) as Havg.
  { unfold SampleGroup.avg_rate. rewrite Hg.
    rewrite (for_in_raises l1 l2 s _ 0%Qc (foldl Qcplus 0%Qc rs1) e); [done| |].
    - by apply (for_in_rates Qcplus).
    - by rewrite Hs. }
  split; [|split; [|split; [done|]]].
  - destruct (min_loop_returns l1 rs1 Hrs1) as [m Hm].
    unfold SampleGroup.min_rate. rewrite Hg, enumerate_app. simpl.
    by rewrite (for_in_raises _ _ _ _ None m e Hm (min_body_raises _ _ _ _ Hs)).
  - destruct (max_loop_returns l1 rs1 Hrs1) as [m Hm].
    unfold SampleGroup.max_rate. rewrite Hg, enumerate_app. simpl.
    by rewrite (for_in_raises _ _ _ _ None m e Hm (max_body_raises _ _ _ _ Hs)).
  - unfold SampleGroup.std_dev, SampleGroup.variance. by rewrite Havg.
Qed.

Lemma statistics_raise_with_sample_witness :
  let s1 := Sample.init 10 128 (PNum (Qc_of_Z 0)) (PNum (Qc_of_Z 1)) in
  let s2 := Sample.init 5 128 (PNum (Qc_of_Z 2)) (PNum (Qc_of_Z 2)) in
  let s3 := Sample.init 1 128 (PNum (Qc_of_Z 2)) PNone in
  let g := SampleGroup.make (Sample.init 0 0 (PNum 0%Qc) (PNum 0%Qc))
             [s1; s2; s3] in
  SampleGroup.min_rate g = Raise ZeroDivisionError ∧
  SampleGroup.max_rate g = Raise ZeroDivisionError ∧
  SampleGroup.avg_rate g = Raise ZeroDivisionError ∧
  SampleGroup.std_dev g = Raise ZeroDivisionError.
Proof.
  intros s1 s2 s3 g.
  apply (statistics_raise_with_sample g [s1] [s3] s2
           [(Qc_of_Z 10 / (Qc_of_Z 1 - Qc_of_Z 0))%Qc]).
  - reflexivity.
  - by vm_compute.
  - by vm_compute.
Defined.

(** ** The benchmark and the publishers *)

Section routing.

Implicit Types (b : Benchmark.t) (s : Sample.t).

(** One [Benchmark.add_sample] of a sample with numeric bounds on a
    benchmark whose groups are ready. *)
Lemma benchmark_add_ready b (sample_type : string) s :
  bounds_ready (Benchmark.subscribe b) → bounds_ready (Benchmark.publish b) →
  has_bounds s = true →
  ∃ b', Benchmark.add_sample b sample_type s = (b', Return ()) ∧
        bounds_ready (Benchmark.subscribe b') ∧
        bounds_ready (Benchmark.publish b') ∧
        Benchmark.server b' = Benchmark.server b ∧
        SampleGroup.samples (Benchmark.subscribe b')
        = SampleGroup.samples (Benchmark.subscribe b)
          ++ (if decide (sample_type = "subscribe") then [s] else []) ∧
        SampleGroup.samples (Benchmark.publish b')
        = SampleGroup.samples (Benchmark.publish b)
          ++ (if decide (sample_type = "publish") then [s] else []).
Proof.
  intros Hsub Hpub Hs. unfold Benchmark.add_sample.
  destruct (decide (sample_type = "subscribe")) as [->|Hns].
  - destruct (add_sample_ready (Benchmark.subscribe b) s Hsub) as [Hr Hg].
    destruct (add_sample_stores (Benchmark.subscribe b) s) as (Hst & _).
    destruct (SampleGroup.add_sample (Benchmark.subscribe b) s) as [g r].
    simpl in *. rewrite Hs in Hr. subst r. eexists. split; [done|]. simpl.
    rewrite app_nil_r. by auto.
  - destruct (decide (sample_type = "publish")) as [->|Hnp].
    + destruct (add_sample_ready (Benchmark.publish b) s Hpub) as [Hr Hg].
      destruct (add_sample_stores (Benchmark.publish b) s) as (Hst & _).
      destruct (SampleGroup.add_sample (Benchmark.publish b) s) as [g r].
      simpl in *. rewrite Hs in Hr. subst r. eexists. split; [done|]. simpl.
      rewrite app_nil_r. by auto.
    + exists b. by rewrite !app_nil_r.
Qed.

Lemma of_role_cons (role sample_type : string) s (l : list (string * Sample.t)) :
  of_role role ((sample_type, s) :: l)
  = (if decide (sample_type = role) then [s] else []) ++ of_role role l.
Proof.
  unfold of_role. rewrite filter_cons. simpl. by case_decide.
Qed.

Lemma add_typed_samples_ready (l : list (string * Sample.t)) : ∀ b,
  bounds_ready (Benchmark.subscribe b) → bounds_ready (Benchmark.publish b) →
  Forall (fun p => has_bounds p.2 = true) l →
  ∃ b', add_typed_samples b l = (b', Return ()) ∧
        Benchmark.server b' = Benchmark.server b ∧
        SampleGroup.samples (Benchmark.subscribe b')
        = SampleGroup.samples (Benchmark.subscribe b) ++ of_role "subscribe" l ∧
        SampleGroup.samples (Benchmark.publish b')
        = SampleGroup.samples (Benchmark.publish b) ++ of_role "publish" l.
Proof.
  induction l as [|[ty s] l IH]; intros b Hsub Hpub Hl.
  - exists b. by rewrite !app_nil_r.
  - apply Forall_cons in Hl as [Hs Hl]. simpl in Hs.
    destruct (benchmark_add_ready b ty s Hsub Hpub Hs)
      as (b1 & Hb1 & Hsub1 & Hpub1 & Hsrv1 & Hss1 & Hps1).
    destruct (IH b1 Hsub1 Hpub1 Hl) as (b' & Hb' & Hsrv & Hss & Hps).
    exists b'. simpl. rewrite Hb1, Hb'. split; [done|].
    split; [congruence|].
    rewrite !of_role_cons, Hss, Hps, Hss1, Hps1, <-!app_assoc. done.
Qed.

End routing.

(** X17.  Samples with numeric bounds handed to a new benchmark with their
    roles are all accepted; the subscribe group holds those of role
    ['subscribe'] and the publish group those of role ['publish'], each in
    the order of arrival, and samples of any other role are dropped
    without an error. *)
Theorem benchmark_routes_by_role (server : string)
    (l : list (string * Sample.t)) :
  Forall (fun p => has_bounds p.2 = true) l →
  ∃ b', add_typed_samples (Benchmark.init server) l = (b', Return ()) ∧
        Benchmark.server b' = server ∧
        SampleGroup.samples (Benchmark.subscribe b') = of_role "subscribe" l ∧
        SampleGroup.samples (Benchmark.publish b') = of_role "publish" l.
Proof.
  intros Hl.
  destruct (add_typed_samples_ready l (Benchmark.init server)) as
    (b' & Hb' & Hsrv & Hss & Hps); [by left|by left|done|].
  exists b'. by repeat split.
Qed.

Lemma benchmark_routes_by_role_witness :
  let s1 := Sample.init 10 128 (PNum (Qc_of_Z 4)) (PNum (Qc_of_Z 6)) in
  let s2 := Sample.init 20 128 (PNum (Qc_of_Z 2)) (PNum (Qc_of_Z 5)) in
  let s3 := Sample.init 30 128 (PNum (Qc_of_Z 3)) (PNum (Qc_of_Z 9)) in
  let l := [("publish", s1); ("consume", s2); ("subscribe", s3)] in
  ∃ b', add_typed_samples (Benchmark.init "127.0.0.1:61613") l
        = (b', Return ()) ∧
        Benchmark.server b' = "127.0.0.1:61613" ∧
        SampleGroup.samples (Benchmark.subscribe b') = of_role "subscribe" l ∧
        SampleGroup.samples (Benchmark.publish b') = of_role "publish" l.
Proof.
  intros s1 s2 s3 l. apply (benchmark_routes_by_role "127.0.0.1:61613" l).
  repeat constructor.
Defined.

Section publishing.

Implicit Types (b : Benchmark.t) (c : client).

Lemma send_loop c (queue msg : string) (k : nat) : ∀ (i : nat),
  foldl (fun c (_ : nat) => client_send c queue msg) c (seq i k)
  = {| sent := sent c ++ replicate k (queue, msg); closed := closed c |}.
Proof.
  revert c. induction k as [|k IH]; intros c i; simpl.
  - rewrite app_nil_r. by destruct c.
  - rewrite IH. simpl. by rewrite <-app_assoc.
Qed.

(** One publisher on a benchmark whose groups are ready. *)
Lemma run_publish_ready c b (msg : string) (message_size num_msgs : Z)
    (queue : string) (start end_ : Qc) :
  bounds_ready (Benchmark.subscribe b) → bounds_ready (Benchmark.publish b) →
  ∃ b',
    run_publish c b msg message_size num_msgs queue start end_
    = ({| sent := sent c ++ replicate (Z.to_nat num_msgs) (queue, msg);
          closed := true |}, b', Return ()) ∧
    bounds_ready (Benchmark.subscribe b') ∧
    bounds_ready (Benchmark.publish b') ∧
    Benchmark.subscribe b' = Benchmark.subscribe b ∧
    SampleGroup.samples (Benchmark.publish b')
    = SampleGroup.samples (Benchmark.publish b)
      ++ [Sample.init num_msgs message_size (PNum start) (PNum end_)] ∧
    SampleGroup.messages (Benchmark.publish b')
    = SampleGroup.messages (Benchmark.publish b) + num_msgs ∧
    SampleGroup.msg_bytes (Benchmark.publish b')
    = SampleGroup.msg_bytes (Benchmark.publish b) + num_msgs * message_size.
Proof.
  intros Hsub Hpub. unfold run_publish, range. rewrite send_loop.
  set (s := Sample.init num_msgs message_size (PNum start) (PNum end_)).
  destruct (add_sample_ready (Benchmark.publish b) s Hpub) as [Hr Hg].
  destruct (add_sample_stores (Benchmark.publish b) s) as (Hst & Hm & Hmb).
  unfold Benchmark.add_sample.
  destruct (decide ("publish" = "subscribe")) as [?|_]; [done|].
  destruct (decide ("publish" = "publish")) as [_|?]; [|done].
  destruct (SampleGroup.add_sample (Benchmark.publish b) s) as [g r].
  simpl in *. subst r. eexists. split; [reflexivity|]. simpl.
  by auto 10.
Qed.

Lemma sum_scale (k : Z) (zs : list Z) :
  sum ((fun z => z * k) <$> zs) = sum zs * k.
Proof.
  induction zs as [|z zs IH]; [done|].
  rewrite fmap_cons, !sum_cons, IH. lia.
Qed.

Lemma run_publishers_ready (msg : string) (message_size : Z) (queue : string)
    (jobs : list (Z * (Qc * Qc))) : ∀ b,
  bounds_ready (Benchmark.subscribe b) → bounds_ready (Benchmark.publish b) →
  ∃ b',
    run_publishers b msg message_size queue jobs
    = ((fun j => {| sent := replicate (Z.to_nat j.1) (queue, msg);
                    closed := true |}) <$> jobs, b', Return ()) ∧
    Benchmark.subscribe b' = Benchmark.subscribe b ∧
    SampleGroup.samples (Benchmark.publish b')
    = SampleGroup.samples (Benchmark.publish b)
      ++ ((fun j => Sample.init j.1 message_size (PNum j.2.1) (PNum j.2.2))
            <$> jobs) ∧
    SampleGroup.messages (Benchmark.publish b')
    = SampleGroup.messages (Benchmark.publish b) + sum jobs.*1 ∧
    SampleGroup.msg_bytes (Benchmark.publish b')
    = SampleGroup.msg_bytes (Benchmark.publish b)
      + sum jobs.*1 * message_size.
Proof.
  induction jobs as [|[q [st en]] jobs IH]; intros b Hsub Hpub.
  - exists b. simpl. rewrite app_nil_r. unfold sum. simpl.
    repeat split; lia.
  - destruct (run_publish_ready (Client [] false) b msg message_size q queue
                st en Hsub Hpub)
      as (b1 & Hrun & Hsub1 & Hpub1 & Hs1 & Hp1 & Hm1 & Hmb1).
    destruct (IH b1 Hsub1 Hpub1) as (b' & Hrest & Hs & Hp & Hm & Hmb).
    exists b'. cbn [run_publishers]. rewrite Hrun, Hrest.
    rewrite !fmap_cons, !sum_cons. simpl.
    split; [done|]. split; [congruence|].
    split; [by rewrite Hp, Hp1, <-app_assoc|]. split; lia.
Qed.

Lemma quotas_nonneg (n np : Z) (l : list Z) :
  0 ≤ n → 1 ≤ np → message_per_client n np = Return l →
  Forall (fun q => 0 ≤ q) l.
Proof.
  intros Hn Hnp Hl.
  destruct (message_per_client_returns n np Hnp) as [Hshape _].
  rewrite Hshape in Hl. injection Hl as <-.
  pose proof (Z.div_pos n np ltac:(lia) ltac:(lia)).
  apply Forall_app. split; apply Forall_replicate; lia.
Qed.

Lemma sum_to_nat (zs : list Z) :
  Forall (fun q => 0 ≤ q) zs →
  sum ((fun q => Z.of_nat (Z.to_nat q)) <$> zs) = sum zs.
Proof.
  induction 1 as [|z zs Hz _ IH]; [done|].
  rewrite fmap_cons, !sum_cons, IH. lia.
Qed.

End publishing.

(** X18.  On a benchmark whose groups are ready, [run_publish] sends its
    payload to the queue [num_msgs] times (not at all for a negative
    quota), hands the benchmark one publish sample
    [Sample(num_msgs, message_size, start, end)], leaves the subscribe
    group alone, and closes its client. *)
Theorem run_publish_effect (c : client) (b : Benchmark.t) (msg : string)
    (message_size num_msgs : Z) (queue : string) (start end_ : Qc) :
  bounds_ready (Benchmark.subscribe b) → bounds_ready (Benchmark.publish b) →
  ∃ b',
    run_publish c b msg message_size num_msgs queue start end_
    = ({| sent := sent c ++ replicate (Z.to_nat num_msgs) (queue, msg);
          closed := true |}, b', Return ()) ∧
    Benchmark.subscribe b' = Benchmark.subscribe b ∧
    SampleGroup.samples (Benchmark.publish b')
    = SampleGroup.samples (Benchmark.publish b)
      ++ [Sample.init num_msgs message_size (PNum start) (PNum end_)].
Proof.
  intros Hsub Hpub.
  destruct (run_publish_ready c b msg message_size num_msgs queue start end_
              Hsub Hpub) as (b' & Hrun & _ & _ & Hs & Hp & _).
  by exists b'.
Qed.

Lemma run_publish_effect_witness :
  let b := Benchmark.init "127.0.0.1:61613" in
  ∃ b',
    run_publish (Client [] false) b "payload" 7 3 "/queue/bench"
      (Qc_of_Z 1) (Qc_of_Z 2)
    = ({| sent := sent (Client [] false)
                  ++ replicate (Z.to_nat 3) ("/queue/bench", "payload");
          closed := true |}, b', Return ()) ∧
    Benchmark.subscribe b' = Benchmark.subscribe b ∧
    SampleGroup.samples (Benchmark.publish b')
    = SampleGroup.samples (Benchmark.publish b)
      ++ [Sample.init 3 7 (PNum (Qc_of_Z 1)) (PNum (Qc_of_Z 2))].
Proof.
  intros b.
  apply (run_publish_effect (Client [] false) b "payload" 7 3 "/queue/bench");
    by left.
Defined.

(** X19.  With [n >= 0] messages and at least one publisher, the
    publishers of a new benchmark, given the coordinator's quotas and
    finishing in any order, together send exactly [n] messages; the
    publish group ends with one sample per publisher, [n] messages and
    [n * message_size] bytes; every client is closed and the subscribe
    group is untouched. *)
Theorem publishers_send_all (server msg queue : string) (message_size n np : Z)
    (quotas : list Z) (jobs : list (Z * (Qc * Qc))) :
  0 ≤ n → 1 ≤ np →
  publisher_quotas n np = Return quotas →
  jobs.*1 ≡ₚ quotas →
  ∃ (clients : list client) (b' : Benchmark.t),
    run_publishers (Benchmark.init server) msg message_size queue jobs
    = (clients, b', Return ()) ∧
    length clients = Z.to_nat np ∧
    Forall (fun c => closed c = true) clients ∧
    sum ((fun c => Z.of_nat (length (sent c))) <$> clients) = n ∧
    Benchmark.subscribe b' = SampleGroup.init ∧
    length (SampleGroup.samples (Benchmark.publish b')) = Z.to_nat np ∧
    SampleGroup.messages (Benchmark.publish b') = n ∧
    SampleGroup.msg_bytes (Benchmark.publish b') = n * message_size.
Proof.
  intros Hn Hnp Hq Hperm.
  destruct (message_per_client_returns n np Hnp) as [Hshape Hle].
  assert (message_per_client n np = Return quotas) as Hmpc.
  { revert Hq. unfold publisher_quotas. destruct (decide (np ≠ 0)); [|lia].
    rewrite Hshape. simpl. unfold range. rewrite for_in_read.
    - simpl. rewrite drop_0, take_ge; [by intros <-|].
      rewrite length_app, !length_replicate. lia.
    - rewrite length_app, !length_replicate. lia. }
  assert (sum quotas = n ∧ length quotas = Z.to_nat np) as [Hsum Hlen].
  { rewrite Hshape in Hmpc. injection Hmpc as <-.
    split; [by apply sum_quotas|].
    rewrite length_app, !length_replicate. lia. }
  pose proof (quotas_nonneg n np quotas Hn Hnp Hmpc) as Hpos.
  rewrite <-Hperm in Hpos.
  assert (sum jobs.*1 = n) as Hjobs by (by rewrite (sum_perm _ _ Hperm)).
  assert (length jobs = Z.to_nat np) as Hjl.
  { rewrite <-Hlen, <-Hperm. by rewrite length_fmap. }
  destruct (run_publishers_ready msg message_size queue jobs
              (Benchmark.init server)) as (b' & Hrun & Hs & Hp & Hm & Hmb);
    [by left|by left|].
  eexists _, b'. split; [exact Hrun|].
  split; [by rewrite length_fmap|].
  split; [by apply Forall_fmap, Forall_true|].
  split.
  { transitivity (sum ((fun q => Z.of_nat (Z.to_nat q)) <$> jobs.*1)).
    - f_equal. rewrite <-!list_fmap_compose. apply list_fmap_ext.
      intros i j _. simpl. by rewrite length_replicate.
    - by rewrite sum_to_nat. }
  split; [done|].
  split; [by rewrite Hp, length_app, length_fmap|].
  split; [rewrite Hm|rewrite Hmb]; rewrite Hjobs; done.
Qed.

Lemma publishers_send_all_witness :
  let jobs := [(3, (Qc_of_Z 1, Qc_of_Z 5)); (4, (Qc_of_Z 1, Qc_of_Z 4));
               (3, (Qc_of_Z 2, Qc_of_Z 6))] in
  ∃ (clients : list client) (b' : Benchmark.t),
    run_publishers (Benchmark.init "127.0.0.1:61613") "payload" 7
      "/queue/bench" jobs
    = (clients, b', Return ()) ∧
    length clients = Z.to_nat 3 ∧
    Forall (fun c => closed c = true) clients ∧
    sum ((fun c => Z.of_nat (length (sent c))) <$> clients) = 10 ∧
    Benchmark.subscribe b' = SampleGroup.init ∧
    length (SampleGroup.samples (Benchmark.publish b')) = Z.to_nat 3 ∧
    SampleGroup.messages (Benchmark.publish b') = 10 ∧
    SampleGroup.msg_bytes (Benchmark.publish b') = 10 * 7.
Proof.
  intros jobs.
  apply (publishers_send_all "127.0.0.1:61613" "payload" "/queue/bench" 7 10 3
           [4; 3; 3] jobs).
  - lia.
  - lia.
  - reflexivity.
  - apply perm_swap.
Defined.

(** ** The subscriber, all runs *)

Section subscriber_runs.

Implicit Types (w : world) (e : event) (b : Benchmark.t).

Lemma step_quiet b w e : quiet b w → quiet b (step w e).
Proof.
  destruct w as [[c ms n to st en wa ta] b0 cl co]. unfold quiet. simpl.
  intros Hq. destruct e as [lt tm|time].
  - unfold_step. destruct cl.
    + simpl. intros Hta. by destruct (Hq Hta).
    + destruct st, to; simpl; intros Hta; by destruct (Hq Hta) as (_&->&->&->).
  - unfold_step. destruct ta; try done.
    destruct (Hq eq_refl) as (-> & -> & -> & ->).
    destruct (truthy to); [|done].
    destruct (py_lt (PNum time) to) as [[]|]; simpl; try done.
    by destruct (Benchmark.add_sample b "subscribe" _) as [b' [[]|]].
Qed.

Lemma run_quiet b (message_size num_msgs : Z) (events : list event) :
  quiet b (run_subscribe b message_size num_msgs events).
Proof.
  unfold run_subscribe.
  assert (quiet b (World (Handler.init message_size num_msgs) b false None))
    as H0 by done.
  revert H0. generalize (World (Handler.init message_size num_msgs) b false None).
  induction events as [|e events IH]; intros w Hw; [done|].
  simpl. by apply IH, step_quiet.
Qed.

(** The poll that finds the deadline elapsed, on a quiet world whose
    subscribe group is ready. *)
Lemma firing_poll w b (p : Qc) :
  Handler._task (handler w) = Running → quiet b w →
  Handler.deadline_elapsed (handler w) p = Return true →
  bounds_ready (Benchmark.subscribe b) →
  let h := handler w in
  let s := Sample.init (Handler.counter h) (Handler.message_size h)
             (Handler.start h) (Handler.end_ h) in
  SampleGroup.samples (Benchmark.subscribe (bench (step w (Poll p))))
  = SampleGroup.samples (Benchmark.subscribe b) ++ [s] ∧
  Benchmark.publish (bench (step w (Poll p))) = Benchmark.publish b ∧
  if has_bounds s
  then completed_at (step w (Poll p)) = Some p ∧
       client_closed (step w (Poll p)) = true ∧
       Handler._task (handler (step w (Poll p))) = Cancelled ∧
       Handler._waiter (handler (step w (Poll p))) = true
  else completed_at (step w (Poll p)) = None ∧
       Handler._task (handler (step w (Poll p))) = Failed TypeError ∧
       Handler._waiter (handler (step w (Poll p))) = false.
Proof.
  intros Hta Hq Hel Hready. destruct (Hq Hta) as (Hcl & Hwa & Hco & Hb).
  destruct w as [[c ms n to st en wa ta] b0 cl co].
  simpl in Hta, Hcl, Hwa, Hco, Hb, Hel. subst ta cl wa co b0.
  cbn [handler Handler.counter Handler.message_size Handler.start
       Handler.end_].
  set (s := Sample.init c ms st en).
  destruct (add_sample_ready (Benchmark.subscribe b) s Hready) as [Hr _].
  destruct (add_sample_stores (Benchmark.subscribe b) s) as (Hst & _).
  unfold step. cbn [handler Handler._task bench].
  unfold Handler.timeout_task_iter. rewrite Hel.
  cbn [Handler.counter Handler.message_size Handler.start Handler.end_].
  fold s. unfold Benchmark.add_sample.
  destruct (decide ("subscribe" = "subscribe")) as [_|?]; [|done].
  destruct (SampleGroup.add_sample (Benchmark.subscribe b) s) as [g r].
  simpl in Hr, Hst. subst r.
  destruct (has_bounds s); by unfold_step.
Qed.

End subscriber_runs.

(** X21.  A subscriber to which no message is delivered never completes:
    after any number of polls the world is as [Handler.__init__] left it,
    with nothing handed to the benchmark. *)
Theorem no_message_no_completion (b : Benchmark.t) (message_size num_msgs : Z)
    (events : list event) :
  forallb is_poll events = true →
  run_subscribe b message_size num_msgs events
  = World (Handler.init message_size num_msgs) b false None.
Proof.
  unfold run_subscribe.
  induction events as [|e events IH]; intros Hp; [done|].
  simpl in Hp. apply andb_prop in Hp as [He Hp].
  destruct e as [|p]; [done|]. simpl. by apply IH.
Qed.

Lemma no_message_no_completion_witness :
  run_subscribe (Benchmark.init "127.0.0.1:61613") 128 100000
    [Poll (Q2Qc 0); Poll (Q2Qc (2 # 10)); Poll (Q2Qc 100)]
  = World (Handler.init 128 100000) (Benchmark.init "127.0.0.1:61613")
      false None.
Proof.
  apply (no_message_no_completion (Benchmark.init "127.0.0.1:61613") 128
           100000 [Poll (Q2Qc 0); Poll (Q2Qc (2 # 10)); Poll (Q2Qc 100)]).
  reflexivity.
Defined.

(** X22.  Whatever the events, a subscriber leaves the publish group and
    the server name alone and appends at most one sample to the subscribe
    group; as long as its poll task runs it has not touched the benchmark
    at all. *)
Theorem subscriber_adds_at_most_once (b : Benchmark.t)
    (message_size num_msgs : Z) (events : list event) :
  let w := run_subscribe b message_size num_msgs events in
  Benchmark.publish (bench w) = Benchmark.publish b ∧
  Benchmark.server (bench w) = Benchmark.server b ∧
  (SampleGroup.samples (Benchmark.subscribe (bench w))
   = SampleGroup.samples (Benchmark.subscribe b) ∨
   ∃ s : Sample.t,
     SampleGroup.samples (Benchmark.subscribe (bench w))
     = SampleGroup.samples (Benchmark.subscribe b) ++ [s]) ∧
  (Handler._task (handler w) = Running → bench w = b).
Proof.
  induction events as [|e events IH] using rev_ind; [simpl; by auto|].
  unfold run_subscribe in *. rewrite foldl_app. simpl.
  fold (run_subscribe b message_size num_msgs events) in *.
  pose proof (run_quiet b message_size num_msgs events) as Hq.
  set (w := run_subscribe b message_size num_msgs events) in *.
  destruct IH as (Hpub & Hsrv & Hsub & _).
  assert (Handler._task (handler w) = Running ∨
          Handler._task (handler w) ≠ Running) as [Hta|Hta]
    by (destruct (Handler._task (handler w)); by auto).
  - destruct (Hq Hta) as (Hcl & Hwa & Hco & Hb).
    pose proof (step_quiet b w e Hq) as Hq'.
    split; [|split; [|split]]; try (intros H; by apply Hq').
    all: destruct w as [[c ms n to st en wa ta] b0 cl co]; simpl in *;
      subst ta cl wa co b0; destruct e as [lt tm|time]; [by auto|].
    all: unfold_step; destruct (truthy to); [|by auto];
      destruct (py_lt (PNum time) to) as [[]|]; simpl; [by auto| |by auto].
    all: destruct (add_sample_stores (Benchmark.subscribe b)
                     (Sample.init c ms st en)) as (Hst & _);
      unfold Benchmark.add_sample;
      destruct (decide ("subscribe" = "subscribe")) as [_|?]; [|done];
      destruct (SampleGroup.add_sample (Benchmark.subscribe b) _) as [g r];
      simpl in Hst; destruct r as [[]|]; simpl; eauto.
  - destruct (step_stopped w e Hta) as (Hta' & _ & Hb & _).
    rewrite Hb, Hta'. by auto.
Qed.

Lemma message_size_kept (b : Benchmark.t) (message_size num_msgs : Z)
    (events : list event) :
  Handler.message_size (handler (run_subscribe b message_size num_msgs events))
  = message_size.
Proof.
  unfold run_subscribe.
  assert (Handler.message_size
            (handler (World (Handler.init message_size num_msgs) b false None))
          = message_size) as H0 by done.
  revert H0. generalize (World (Handler.init message_size num_msgs) b false None).
  induction events as [|e events IH]; intros w Hw; [done|].
  simpl. apply IH. rewrite <-Hw. clear.
  destruct w as [[c ms n to st en wa ta] b0 cl co].
  destruct e as [lt tm|time].
  - unfold_step. destruct cl; [done|]. by destruct st, to.
  - unfold_step. destruct ta; try done.
    destruct (truthy to); [|by destruct wa].
    destruct (py_lt (PNum time) to) as [[]|]; simpl; try done.
    + by destruct wa.
    + destruct (Benchmark.add_sample b0 "subscribe" _) as [b' [[]|]]; [|done].
      by destruct wa.
Qed.

Section completion.

(** The world before the poll that finds the deadline elapsed. *)
Lemma before_firing (b : Benchmark.t) (message_size num_msgs : Z)
    (events : list event) :
  let w := run_subscribe b message_size num_msgs events in
  Handler._task (handler w) = Running →
  quiet b w ∧ tracks w (message_timers events) ∧
  Handler.message_size (handler w) = message_size.
Proof.
  intros w Hta. pose proof (run_quiet b message_size num_msgs events) as Hq.
  split; [done|]. destruct (Hq Hta) as (Hcl & _).
  split; [by apply (run_tracks events _ [])|].
  pose proof (message_size_kept b message_size num_msgs events) as H.
  exact H.
Qed.

End completion.

(** What the poll task does achieve.  A subscriber that has received two
    messages or more, on a benchmark whose subscribe group is ready and
    with polls exactly 0.2 apart, completes at the poll [p] that follows
    its last message (loop time [t]) exactly when [t + 0.6 <= p], and
    [p] comes before [t + 0.6 + 0.2]. *)
Lemma done_fires_in_window (b : Benchmark.t) (message_size num_msgs : Z)
    (p0 p t tm1 tm2 : Qc) (tms : list Qc) (events : list event) :
  bounds_ready (Benchmark.subscribe b) →
  (0 ≤ p0)%Qc →
  schedule_ok p0 p0 (events ++ [Poll p]) = true →
  last_message_time events = Some t →
  message_timers events = tm1 :: tm2 :: tms →
  Handler._task (handler (run_subscribe b message_size num_msgs events))
  = Running →
  (p < t + IDLE_WINDOW + POLL_INTERVAL)%Qc ∧
  (completed_at (run_subscribe b message_size num_msgs (events ++ [Poll p]))
   = Some p ↔ (t + IDLE_WINDOW ≤ p)%Qc).
Proof.
  intros Hready Hp0 Hok Hlast Htm Hta.
  destruct (done_within_poll_interval b message_size num_msgs p0 p t events
              Hp0 Hok Hlast Hta) as (Hiff & Hlt & Honly & _).
  split; [exact Hlt|]. split.
  - intros Hdone. by destruct (Honly p Hdone).
  - intros Hel%Hiff.
    destruct (before_firing b message_size num_msgs events Hta)
      as (Hq & (Hc & Hst & Hen & _) & Hms).
    pose proof (firing_poll _ b p Hta Hq Hel Hready) as Hfire.
    cbv zeta in Hfire.
    set (w1 := step (run_subscribe b message_size num_msgs events) (Poll p)) in *.
    rewrite Hc, Hst, Hen, Hms, Htm in Hfire. simpl in Hfire.
    destruct Hfire as (_ & _ & Hco & _).
    unfold run_subscribe. rewrite foldl_app. exact Hco.
Qed.

(** X23.  A subscriber that has received two messages or more, on a
    benchmark whose subscribe group is ready, completes at the poll that
    finds its deadline elapsed: it appends
    [Sample(number of messages, message_size, first timer reading,
    last timer reading)] to the subscribe group, releases the waiter,
    cancels the poll task and closes the client; no later event changes
    that world. *)
Theorem subscriber_completes (b : Benchmark.t) (message_size num_msgs : Z)
    (events later : list event) (p tm1 tm2 : Qc) (tms : list Qc) :
  bounds_ready (Benchmark.subscribe b) →
  Handler._task (handler (run_subscribe b message_size num_msgs events))
  = Running →
  message_timers events = tm1 :: tm2 :: tms →
  Handler.deadline_elapsed
    (handler (run_subscribe b message_size num_msgs events)) p = Return true →
  let w' := run_subscribe b message_size num_msgs (events ++ [Poll p]) in
  completed_at w' = Some p ∧ client_closed w' = true ∧
  Handler._task (handler w') = Cancelled ∧
  Handler._waiter (handler w') = true ∧
  SampleGroup.samples (Benchmark.subscribe (bench w'))
  = SampleGroup.samples (Benchmark.subscribe b)
    ++ [Sample.init (Z.of_nat (length (tm1 :: tm2 :: tms))) message_size
          (PNum tm1) (PNum (List.last tms tm2))] ∧
  Benchmark.publish (bench w') = Benchmark.publish b ∧
  run_subscribe b message_size num_msgs (events ++ Poll p :: later) = w'.
Proof.
  intros Hready Hta Htm Hel.
  destruct (before_firing b message_size num_msgs events Hta)
    as (Hq & (Hc & Hst & Hen & _) & Hms).
  pose proof (firing_poll _ b p Hta Hq Hel Hready) as Hfire.
  cbv zeta in Hfire.
  set (w1 := step (run_subscribe b message_size num_msgs events) (Poll p)) in *.
  rewrite Hc, Hst, Hen, Hms, Htm in Hfire. simpl in Hfire.
  destruct Hfire as (Hs & Hp & Hco & Hcl & Hta' & Hwa).
  intros w'.
  assert (w' = w1) as Hw'
    by (unfold w', w1, run_subscribe; by rewrite foldl_app).
  rewrite Hw'. do 6 (split; [done|]).
  unfold run_subscribe at 1.
  change (events ++ Poll p :: later) with (events ++ [Poll p] ++ later).
  rewrite app_assoc, foldl_app.
  fold (run_subscribe b message_size num_msgs (events ++ [Poll p])).
  fold w'. rewrite Hw'.
  eapply run_stopped; [by rewrite Hta'|done].
Qed.

Lemma subscriber_completes_witness :
  let b := Benchmark.init "127.0.0.1:61613" in
  let p := Q2Qc (12 # 10) in
  let tm1 := Q2Qc (1005 # 100) in
  let tm2 := Q2Qc (1015 # 100) in
  let tms := [Q2Qc (1025 # 100); Q2Qc (1035 # 100); Q2Qc (1045 # 100)] in
  let later := [Message (Q2Qc (13 # 10)) (Q2Qc (113 # 10)); Poll (Q2Qc (14 # 10))] in
  let w' := run_subscribe b 128 100000 (scenario_C ++ [Poll p]) in
  completed_at w' = Some p ∧ client_closed w' = true ∧
  Handler._task (handler w') = Cancelled ∧
  Handler._waiter (handler w') = true ∧
  SampleGroup.samples (Benchmark.subscribe (bench w'))
  = SampleGroup.samples (Benchmark.subscribe b)
    ++ [Sample.init (Z.of_nat (length (tm1 :: tm2 :: tms))) 128
          (PNum tm1) (PNum (List.last tms tm2))] ∧
  Benchmark.publish (bench w') = Benchmark.publish b ∧
  run_subscribe b 128 100000 (scenario_C ++ Poll p :: later) = w'.
Proof.
  intros b p tm1 tm2 tms later.
  apply (subscriber_completes b 128 100000 scenario_C later p tm1 tm2 tms).
  - by left.
  - by vm_compute.
  - reflexivity.
  - by vm_compute.
Defined.



Lemma run_subscribe_fields_witness :
  tracks (run_subscribe (Benchmark.init "127.0.0.1:61613") 128 100000 scenario_C)
    (message_timers scenario_C).
Proof.
  apply (run_subscribe_fields (Benchmark.init "127.0.0.1:61613") 128 100000
           scenario_C).
  by vm_compute.
Defined.

